(** * MiFace MediaPipe bridge: a shallow embedding of [cpp_core/mediapipe_bridge.cc]

    The bridge is a C API over a streaming landmark graph.  The embedding
    follows the translation unit top to bottom:

    - the records of [mediapipe_bridge.h] ([MPConfig], [MPLandmark],
      [MPResults], [MPError]);
    - the thread-local error slot with [SetError] / [ClearError];
    - [ConvertLandmarks] / [ConvertWorldLandmarks] over an explicit heap of
      [new[]]-allocated arrays;
    - [MediaPipeProcessor::Process] and [FetchResults];
    - the exported entry points [MP_Create], [MP_Process],
      [MP_ReleaseResults], [MP_GetLastError].

    The calculator graph, OpenCV and the clock are external: what they do
    during one call is an input of the model ([GraphFrame]), and what the
    bridge does to the graph is recorded in the processor ([input_video]). *)

From Stdlib Require Import ZArith Ascii String.
From stdpp Require Import base numbers option list strings gmap sorting.

Local Open Scope Z_scope.

(* ===================================================================== *)
(** ** Machine-level data *)
(* ===================================================================== *)

(** A C [float] is carried by its IEEE-754 binary32 bit pattern: the bridge
    only copies floats and writes the literal [1.0f]. *)
Definition float32 : Type := Z.
Definition f32_one : float32 := 0x3F800000.
Definition f32_zero : float32 := 0.

(** [int64_t]: two's complement wrap-around of a mathematical integer.
    Overflow of a signed increment is undefined in C++; the model wraps,
    and the statements about the frame counter keep it below [INT64_MAX]. *)
Definition INT64_MIN : Z := - 2 ^ 63.
Definition INT64_MAX : Z := 2 ^ 63 - 1.
Definition int64_wrap (v : Z) : Z := (v + 2 ^ 63) mod 2 ^ 64 - 2 ^ 63.

(** Pointers to landmark arrays: address 0 is [nullptr], which is also what
    [memset (..., 0, ...)] leaves in a pointer field. *)
Abbreviation ptr := N (only parsing).
Definition nullptr : ptr := 0%N.

(** Threads are named by a number; each has its own [g_last_error]. *)
Abbreviation thread := nat (only parsing).

Definition NUL : ascii := Ascii.zero.

(* ===================================================================== *)
(** ** mediapipe_bridge.h *)
(* ===================================================================== *)

Record MPConfig := {
  model_complexity : Z;
  min_detection_confidence : float32;
  min_tracking_confidence : float32;
  static_image_mode : bool;
  smooth_landmarks : bool;
  refine_face_landmarks : bool;
  enable_segmentation : bool
}.

Record MPLandmark := {
  x : float32;
  y : float32;
  z : float32;
  visibility : float32;
  presence : float32
}.

Record MPResults := {
  face_landmarks : ptr;
  face_count : Z;
  left_hand_landmarks : ptr;
  left_hand_count : Z;
  right_hand_landmarks : ptr;
  right_hand_count : Z;
  pose_landmarks : ptr;
  pose_count : Z;
  pose_world_landmarks : ptr;
  pose_world_count : Z;
  timestamp_ms : Z;
  processing_time_ms : float32;
  face_detected : bool;
  hands_detected : bool;
  pose_detected : bool
}.

(** [sizeof (MPError::message)]. *)
Definition MESSAGE_SIZE : nat := 256.

Record MPError := {
  code : Z;
  message : list ascii
}.

(** [memset (results, 0, sizeof (MPResults))]. *)
Definition MPResults_zero : MPResults := {|
  face_landmarks := nullptr; face_count := 0;
  left_hand_landmarks := nullptr; left_hand_count := 0;
  right_hand_landmarks := nullptr; right_hand_count := 0;
  pose_landmarks := nullptr; pose_count := 0;
  pose_world_landmarks := nullptr; pose_world_count := 0;
  timestamp_ms := 0; processing_time_ms := f32_zero;
  face_detected := false; hands_detected := false; pose_detected := false
|}.

(** Field assignments [results->f = v]. *)
Definition set_face_landmarks (v : ptr) (r : MPResults) : MPResults :=
  Build_MPResults v (face_count r) (left_hand_landmarks r) (left_hand_count r)
    (right_hand_landmarks r) (right_hand_count r) (pose_landmarks r) (pose_count r)
    (pose_world_landmarks r) (pose_world_count r) (timestamp_ms r)
    (processing_time_ms r) (face_detected r) (hands_detected r) (pose_detected r).
Definition set_face_count (v : Z) (r : MPResults) : MPResults :=
  Build_MPResults (face_landmarks r) v (left_hand_landmarks r) (left_hand_count r)
    (right_hand_landmarks r) (right_hand_count r) (pose_landmarks r) (pose_count r)
    (pose_world_landmarks r) (pose_world_count r) (timestamp_ms r)
    (processing_time_ms r) (face_detected r) (hands_detected r) (pose_detected r).
Definition set_left_hand_landmarks (v : ptr) (r : MPResults) : MPResults :=
  Build_MPResults (face_landmarks r) (face_count r) v (left_hand_count r)
    (right_hand_landmarks r) (right_hand_count r) (pose_landmarks r) (pose_count r)
    (pose_world_landmarks r) (pose_world_count r) (timestamp_ms r)
    (processing_time_ms r) (face_detected r) (hands_detected r) (pose_detected r).
Definition set_left_hand_count (v : Z) (r : MPResults) : MPResults :=
  Build_MPResults (face_landmarks r) (face_count r) (left_hand_landmarks r) v
    (right_hand_landmarks r) (right_hand_count r) (pose_landmarks r) (pose_count r)
    (pose_world_landmarks r) (pose_world_count r) (timestamp_ms r)
    (processing_time_ms r) (face_detected r) (hands_detected r) (pose_detected r).
Definition set_right_hand_landmarks (v : ptr) (r : MPResults) : MPResults :=
  Build_MPResults (face_landmarks r) (face_count r) (left_hand_landmarks r)
    (left_hand_count r) v (right_hand_count r) (pose_landmarks r) (pose_count r)
    (pose_world_landmarks r) (pose_world_count r) (timestamp_ms r)
    (processing_time_ms r) (face_detected r) (hands_detected r) (pose_detected r).
Definition set_right_hand_count (v : Z) (r : MPResults) : MPResults :=
  Build_MPResults (face_landmarks r) (face_count r) (left_hand_landmarks r)
    (left_hand_count r) (right_hand_landmarks r) v (pose_landmarks r) (pose_count r)
    (pose_world_landmarks r) (pose_world_count r) (timestamp_ms r)
    (processing_time_ms r) (face_detected r) (hands_detected r) (pose_detected r).
Definition set_pose_landmarks (v : ptr) (r : MPResults) : MPResults :=
  Build_MPResults (face_landmarks r) (face_count r) (left_hand_landmarks r)
    (left_hand_count r) (right_hand_landmarks r) (right_hand_count r) v (pose_count r)
    (pose_world_landmarks r) (pose_world_count r) (timestamp_ms r)
    (processing_time_ms r) (face_detected r) (hands_detected r) (pose_detected r).
Definition set_pose_count (v : Z) (r : MPResults) : MPResults :=
  Build_MPResults (face_landmarks r) (face_count r) (left_hand_landmarks r)
    (left_hand_count r) (right_hand_landmarks r) (right_hand_count r)
    (pose_landmarks r) v (pose_world_landmarks r) (pose_world_count r)
    (timestamp_ms r) (processing_time_ms r) (face_detected r) (hands_detected r)
    (pose_detected r).
Definition set_pose_world_landmarks (v : ptr) (r : MPResults) : MPResults :=
  Build_MPResults (face_landmarks r) (face_count r) (left_hand_landmarks r)
    (left_hand_count r) (right_hand_landmarks r) (right_hand_count r)
    (pose_landmarks r) (pose_count r) v (pose_world_count r)
    (timestamp_ms r) (processing_time_ms r) (face_detected r) (hands_detected r)
    (pose_detected r).
Definition set_pose_world_count (v : Z) (r : MPResults) : MPResults :=
  Build_MPResults (face_landmarks r) (face_count r) (left_hand_landmarks r)
    (left_hand_count r) (right_hand_landmarks r) (right_hand_count r)
    (pose_landmarks r) (pose_count r) (pose_world_landmarks r) v
    (timestamp_ms r) (processing_time_ms r) (face_detected r) (hands_detected r)
    (pose_detected r).
Definition set_timestamp_ms (v : Z) (r : MPResults) : MPResults :=
  Build_MPResults (face_landmarks r) (face_count r) (left_hand_landmarks r)
    (left_hand_count r) (right_hand_landmarks r) (right_hand_count r)
    (pose_landmarks r) (pose_count r) (pose_world_landmarks r) (pose_world_count r)
    v (processing_time_ms r) (face_detected r) (hands_detected r) (pose_detected r).
Definition set_processing_time_ms (v : float32) (r : MPResults) : MPResults :=
  Build_MPResults (face_landmarks r) (face_count r) (left_hand_landmarks r)
    (left_hand_count r) (right_hand_landmarks r) (right_hand_count r)
    (pose_landmarks r) (pose_count r) (pose_world_landmarks r) (pose_world_count r)
    (timestamp_ms r) v (face_detected r) (hands_detected r) (pose_detected r).
Definition set_face_detected (v : bool) (r : MPResults) : MPResults :=
  Build_MPResults (face_landmarks r) (face_count r) (left_hand_landmarks r)
    (left_hand_count r) (right_hand_landmarks r) (right_hand_count r)
    (pose_landmarks r) (pose_count r) (pose_world_landmarks r) (pose_world_count r)
    (timestamp_ms r) (processing_time_ms r) v (hands_detected r) (pose_detected r).
Definition set_hands_detected (v : bool) (r : MPResults) : MPResults :=
  Build_MPResults (face_landmarks r) (face_count r) (left_hand_landmarks r)
    (left_hand_count r) (right_hand_landmarks r) (right_hand_count r)
    (pose_landmarks r) (pose_count r) (pose_world_landmarks r) (pose_world_count r)
    (timestamp_ms r) (processing_time_ms r) (face_detected r) v (pose_detected r).
Definition set_pose_detected (v : bool) (r : MPResults) : MPResults :=
  Build_MPResults (face_landmarks r) (face_count r) (left_hand_landmarks r)
    (left_hand_count r) (right_hand_landmarks r) (right_hand_count r)
    (pose_landmarks r) (pose_count r) (pose_world_landmarks r) (pose_world_count r)
    (timestamp_ms r) (processing_time_ms r) (face_detected r) (hands_detected r) v.

(* ===================================================================== *)
(** ** Engine-side landmark lists (landmark.pb.h) *)
(* ===================================================================== *)

(** A protobuf landmark: the accessors [x()], [y()], [z()] always return a
    value; [visibility] and [presence] are present ([has_...()]) or not. *)
Record NormalizedLandmark := {
  n_x : float32;
  n_y : float32;
  n_z : float32;
  n_visibility : option float32;
  n_presence : option float32
}.

Record Landmark := {
  w_x : float32;
  w_y : float32;
  w_z : float32;
  w_visibility : option float32;
  w_presence : option float32
}.

Abbreviation NormalizedLandmarkList := (list NormalizedLandmark).
Abbreviation LandmarkList := (list Landmark).

(* ===================================================================== *)
(** ** The heap of landmark arrays *)
(* ===================================================================== *)

(** Live [new MPLandmark[n]] blocks, by address. *)
Abbreviation heap := (gmap N (list MPLandmark)).

(** What [new MPLandmark[n]] holds before the loop writes it. *)
Definition indeterminate : MPLandmark :=
  {| x := 0; y := 0; z := 0; visibility := 0; presence := 0 |}.

(** [new MPLandmark[n]]: a fresh, non-null block (allocation is assumed to
    succeed). *)
Definition new_array (n : nat) (h : heap) : ptr * heap :=
  let p := fresh ({[nullptr]} ∪ dom h) in
  (p, <[p := replicate n indeterminate]> h).

(** [delete[] p]: nothing for [nullptr]; frees a live block; anything else
    (a dangling or foreign pointer) is undefined behaviour, [None]. *)
Definition delete_array (p : ptr) (h : heap) : option heap :=
  if decide (p = nullptr) then Some h
  else match h !! p with
       | Some _ => Some (delete p h)
       | None => None
       end.

(** [result[i] = v] on the block at [p]. *)
Definition store_landmark (p : ptr) (i : nat) (v : MPLandmark) (h : heap) : heap :=
  alter (λ arr, <[i := v]> arr) p h.

(* ===================================================================== *)
(** ** ErrorContext: the thread-local [g_last_error] *)
(* ===================================================================== *)

(** [thread_local MPError g_last_error = {0, ""}]: a thread that has not
    written its slot yet sees code 0 and an all-zero buffer. *)
Definition g_last_error_init : MPError :=
  {| code := 0; message := replicate MESSAGE_SIZE NUL |}.

Definition g_last_error (t : thread) (E : gmap thread MPError) : MPError :=
  default g_last_error_init (E !! t).

(** [std::string::c_str ()]. *)
Definition c_str (s : string) : list ascii := list_ascii_of_string s ++ [NUL].

(** The C string held by a buffer: the characters before the first NUL. *)
Fixpoint c_string (buf : list ascii) : list ascii :=
  match buf with
  | [] => []
  | c :: buf' => if decide (c = NUL) then [] else c :: c_string buf'
  end.

(** The stores [strncpy (dest, src, n)] performs, as (index, character)
    pairs from index [i] on: the characters of [src] up to its NUL, then NUL
    padding, [n] stores in all. *)
Fixpoint strncpy_writes (i : nat) (src : list ascii) (n : nat) : list (nat * ascii) :=
  match n with
  | O => []
  | S n' =>
      match src with
      | c :: src' =>
          if decide (c = NUL) then (i, NUL) :: strncpy_writes (S i) [] n'
          else (i, c) :: strncpy_writes (S i) src' n'
      | [] => (i, NUL) :: strncpy_writes (S i) [] n'
      end
  end.

Definition store_all (ws : list (nat * ascii)) (buf : list ascii) : list ascii :=
  foldl (λ b w, <[w.1 := w.2]> b) buf ws.

Definition strncpy (dest src : list ascii) (n : nat) : list ascii :=
  store_all (strncpy_writes 0 src n) dest.

(** Every store [SetError] makes into [g_last_error.message]. *)
Definition SetError_writes (msg : string) : list (nat * ascii) :=
  strncpy_writes 0 (c_str msg) (MESSAGE_SIZE - 1) ++ [((MESSAGE_SIZE - 1)%nat, NUL)].

Definition SetError (t : thread) (c : Z) (msg : string) (E : gmap thread MPError)
  : gmap thread MPError :=
  let e := g_last_error t E in
  let m := strncpy (message e) (c_str msg) (MESSAGE_SIZE - 1) in
  let m := <[(MESSAGE_SIZE - 1)%nat := NUL]> m in
  <[t := {| code := c; message := m |}]> E.

Definition ClearError (t : thread) (E : gmap thread MPError) : gmap thread MPError :=
  let e := g_last_error t E in
  <[t := {| code := 0; message := <[0%nat := NUL]> (message e) |}]> E.

(* ===================================================================== *)
(** ** Landmark Conversion *)
(* ===================================================================== *)

(** The loop [for (int i = 0; i < *out_count; ++i) result[i] = ...], with
    [todo] iterations left. *)
Fixpoint ConvertLandmarks_loop (todo i : nat) (landmarks : NormalizedLandmarkList)
    (result : ptr) (h : heap) : heap :=
  match todo with
  | O => h
  | S todo' =>
      match landmarks !! i with
      | Some lm =>
          let e := {| x := n_x lm; y := n_y lm; z := n_z lm;
                      visibility := match n_visibility lm with
                                    | Some v => v | None => f32_one end;
                      presence := match n_presence lm with
                                  | Some v => v | None => f32_one end |} in
          ConvertLandmarks_loop todo' (S i) landmarks result
            (store_landmark result i e h)
      | None => h
      end
  end.

(** Returns the array pointer, [*out_count] and the heap. *)
Definition ConvertLandmarks (landmarks : NormalizedLandmarkList) (h : heap)
  : ptr * Z * heap :=
  let out_count := Z.of_nat (length landmarks) in
  if out_count =? 0 then (nullptr, out_count, h)
  else
    let '(result, h) := new_array (Z.to_nat out_count) h in
    (result, out_count,
     ConvertLandmarks_loop (Z.to_nat out_count) 0 landmarks result h).

Fixpoint ConvertWorldLandmarks_loop (todo i : nat) (landmarks : LandmarkList)
    (result : ptr) (h : heap) : heap :=
  match todo with
  | O => h
  | S todo' =>
      match landmarks !! i with
      | Some lm =>
          let e := {| x := w_x lm; y := w_y lm; z := w_z lm;
                      visibility := match w_visibility lm with
                                    | Some v => v | None => f32_one end;
                      presence := match w_presence lm with
                                  | Some v => v | None => f32_one end |} in
          ConvertWorldLandmarks_loop todo' (S i) landmarks result
            (store_landmark result i e h)
      | None => h
      end
  end.

Definition ConvertWorldLandmarks (landmarks : LandmarkList) (h : heap)
  : ptr * Z * heap :=
  let out_count := Z.of_nat (length landmarks) in
  if out_count =? 0 then (nullptr, out_count, h)
  else
    let '(result, h) := new_array (Z.to_nat out_count) h in
    (result, out_count,
     ConvertWorldLandmarks_loop (Z.to_nat out_count) 0 landmarks result h).

(* ===================================================================== *)
(** ** The external engine *)
(* ===================================================================== *)

(** An external call either returns or raises a [std::exception] whose
    [what ()] is recorded. *)
Inductive Outcome (A : Type) : Type :=
  | Returns (a : A)
  | Throws (what : string).
Arguments Returns {A} a.
Arguments Throws {A} what.

(** [absl::Status]: [ok ()] or an error with its [message ()]. *)
Inductive Status : Type :=
  | StatusOk
  | StatusError (msg : string).

(** What the library does while the constructor of [MediaPipeProcessor]
    runs. *)
Inductive GraphStart : Type :=
  | ParseTextProto_fails
  | Initialize_fails (msg : string)
  | StartRun_fails (msg : string)
  | Started.

(** What the externals do during one [Process] call:
    - [image_frame]: building the [cv::Mat] and the [ImageFrame] around the
      pixels (before the timestamp is taken);
    - [AddPacketToInputStream]: [MakePacket (...).At (timestamp)] and the
      push into ["input_video"] (after the timestamp is taken); [Throws]
      here is an exception raised before the packet reaches the stream;
    - [GetPacket_*]: the non-blocking poll of each output stream, [None]
      when no packet is pending;
    - [elapsed]: [end - start] of the clock, in milliseconds. *)
Record GraphFrame := {
  image_frame : Outcome unit;
  AddPacketToInputStream : Outcome Status;
  GetPacket_face_landmarks : option NormalizedLandmarkList;
  GetPacket_left_hand_landmarks : option NormalizedLandmarkList;
  GetPacket_right_hand_landmarks : option NormalizedLandmarkList;
  GetPacket_pose_landmarks : option NormalizedLandmarkList;
  GetPacket_pose_world_landmarks : option LandmarkList;
  elapsed : float32
}.

(** The bridge's effect on the graph: the timestamps of the packets it
    offered to ["input_video"], oldest first. *)
Record CalculatorGraph := {
  input_video : list Z
}.

(* ===================================================================== *)
(** ** MediaPipeProcessor *)
(* ===================================================================== *)

Record MediaPipeProcessor := {
  config_ : MPConfig;
  graph_ : CalculatorGraph;
  frame_count_ : Z
}.

(** Everything the API functions share besides their arguments. *)
Record World := {
  last_errors : gmap thread MPError;
  blocks : heap
}.

Definition with_errors (f : gmap thread MPError → gmap thread MPError) (w : World)
  : World :=
  {| last_errors := f (last_errors w); blocks := blocks w |}.

(** The constructor: the processor, or the [what ()] of the
    [std::runtime_error] it throws. *)
Definition MediaPipeProcessor_ctor (s : GraphStart) (config : MPConfig)
  : Outcome MediaPipeProcessor :=
  match s with
  | ParseTextProto_fails => Throws "Failed to parse graph config"
  | Initialize_fails msg => Throws ("Graph initialization failed: " +:+ msg)
  | StartRun_fails msg => Throws ("Failed to start graph: " +:+ msg)
  | Started =>
      Returns {| config_ := config;
                 graph_ := {| input_video := [] |};
                 frame_count_ := 0 |}
  end.

Definition FetchResults (g : GraphFrame) (results : MPResults) (h : heap)
  : MPResults * heap :=
  let '(results, h) :=
    match GetPacket_face_landmarks g with
    | Some face_landmarks =>
        let '(p, n, h) := ConvertLandmarks face_landmarks h in
        let results := set_face_count n results in
        let results := set_face_landmarks p results in
        (set_face_detected (0 <? face_count results) results, h)
    | None => (results, h)
    end in
  let '(results, h) :=
    match GetPacket_left_hand_landmarks g with
    | Some left_hand_landmarks =>
        let '(p, n, h) := ConvertLandmarks left_hand_landmarks h in
        let results := set_left_hand_count n results in
        let results := set_left_hand_landmarks p results in
        (set_hands_detected true results, h)
    | None => (results, h)
    end in
  let '(results, h) :=
    match GetPacket_right_hand_landmarks g with
    | Some right_hand_landmarks =>
        let '(p, n, h) := ConvertLandmarks right_hand_landmarks h in
        let results := set_right_hand_count n results in
        let results := set_right_hand_landmarks p results in
        (set_hands_detected true results, h)
    | None => (results, h)
    end in
  let '(results, h) :=
    match GetPacket_pose_landmarks g with
    | Some pose_landmarks =>
        let '(p, n, h) := ConvertLandmarks pose_landmarks h in
        let results := set_pose_count n results in
        let results := set_pose_landmarks p results in
        (set_pose_detected (0 <? pose_count results) results, h)
    | None => (results, h)
    end in
  match GetPacket_pose_world_landmarks g with
  | Some pose_world_landmarks =>
      let '(p, n, h) := ConvertWorldLandmarks pose_world_landmarks h in
      let results := set_pose_world_count n results in
      (set_pose_world_landmarks p results, h)
  | None => (results, h)
  end.

(** [Process]: the return value, the processor afterwards, what [results]
    points to afterwards ([None] for a null [results]) and the world. *)
Definition Process (t : thread) (g : GraphFrame) (self : MediaPipeProcessor)
    (pixels : option (list Byte.byte)) (width height : Z)
    (results : option MPResults) (w : World)
  : bool * MediaPipeProcessor * option MPResults * World :=
  match pixels, results with
  | Some _, Some _ =>
      let results := MPResults_zero in
      match image_frame g with
      | Throws what =>
          (false, self, Some results,
           with_errors (SetError t 3 ("Processing error: " +:+ what)) w)
      | Returns _ =>
          let timestamp := frame_count_ self in
          let self := {| config_ := config_ self;
                         graph_ := graph_ self;
                         frame_count_ := int64_wrap (frame_count_ self + 1) |} in
          match AddPacketToInputStream g with
          | Throws what =>
              (false, self, Some results,
               with_errors (SetError t 3 ("Processing error: " +:+ what)) w)
          | Returns status =>
              let self :=
                {| config_ := config_ self;
                   graph_ := {| input_video :=
                                  input_video (graph_ self) ++ [timestamp] |};
                   frame_count_ := frame_count_ self |} in
              match status with
              | StatusError msg =>
                  (false, self, Some results,
                   with_errors (SetError t 2 ("Failed to add packet: " +:+ msg)) w)
              | StatusOk =>
                  let '(results, h) := FetchResults g results (blocks w) in
                  let results := set_processing_time_ms (elapsed g) results in
                  let results := set_timestamp_ms (timestamp `quot` 1000) results in
                  (true, self, Some results,
                   {| last_errors := ClearError t (last_errors w); blocks := h |})
              end
          end
      end
  | _, _ => (false, self, results, with_errors (SetError t 1 "Invalid arguments") w)
  end.

(* ===================================================================== *)
(** ** C API *)
(* ===================================================================== *)

(** An [MPHandle] is null ([None]) or designates a processor. *)
Definition MP_Create (t : thread) (s : GraphStart) (config : option MPConfig)
    (w : World) : option MediaPipeProcessor * World :=
  match config with
  | None => (None, with_errors (SetError t 10 "Config is null") w)
  | Some config =>
      match MediaPipeProcessor_ctor s config with
      | Returns processor => (Some processor, with_errors (ClearError t) w)
      | Throws what =>
          (None, with_errors (SetError t 11 ("Creation failed: " +:+ what)) w)
      end
  end.

Definition MP_Process (t : thread) (g : GraphFrame)
    (handle : option MediaPipeProcessor) (pixels : option (list Byte.byte))
    (width height : Z) (results : option MPResults) (w : World)
  : bool * option MediaPipeProcessor * option MPResults * World :=
  match handle with
  | None => (false, handle, results, with_errors (SetError t 20 "Invalid handle") w)
  | Some processor =>
      let '(ok, processor, results, w) :=
        Process t g processor pixels width height results w in
      (ok, Some processor, results, w)
  end.

(** [None] when a [delete[]] is undefined (a pointer that is neither null
    nor a live block). *)
Definition MP_ReleaseResults (results : option MPResults) (w : World)
  : option (option MPResults * World) :=
  match results with
  | None => Some (results, w)
  | Some r =>
      h ← delete_array (face_landmarks r) (blocks w);
      h ← delete_array (left_hand_landmarks r) h;
      h ← delete_array (right_hand_landmarks r) h;
      h ← delete_array (pose_landmarks r) h;
      h ← delete_array (pose_world_landmarks r) h;
      Some (Some MPResults_zero, {| last_errors := last_errors w; blocks := h |})
  end.

Definition MP_GetLastError (t : thread) (handle : option MediaPipeProcessor)
    (w : World) : MPError :=
  g_last_error t (last_errors w).

(* ===================================================================== *)
(** ** Callers *)
(* ===================================================================== *)

(** A thread with nothing allocated and no error recorded. *)
Definition World_init : World := {| last_errors := ∅; blocks := ∅ |}.

(** One caller submitting a frame per element of [gs] to the same
    processor, reusing one result record; each entry is the return value
    and the record after that call. *)
Fixpoint submit_frames (t : thread) (gs : list GraphFrame)
    (processor : MediaPipeProcessor) (pixels : list Byte.byte) (width height : Z)
    (r : MPResults) (w : World)
  : list (bool * MPResults) * MediaPipeProcessor * World :=
  match gs with
  | [] => ([], processor, w)
  | g :: gs' =>
      match MP_Process t g (Some processor) (Some pixels) width height (Some r) w with
      | (ok, Some processor', Some r', w') =>
          let '(outs, p_end, w_end) :=
            submit_frames t gs' processor' pixels width height r' w' in
          ((ok, r') :: outs, p_end, w_end)
      | _ => ([], processor, w)
      end
  end.

(** The parts of an [MP_Process] result. *)
Definition call_ok {A B C : Type} (o : bool * A * B * C) : bool := o.1.1.1.
Definition call_handle {A B C : Type} (o : bool * A * B * C) : A := o.1.1.2.
Definition call_results {A B C : Type} (o : bool * A * B * C) : B := o.1.2.
Definition call_world {A B C : Type} (o : bool * A * B * C) : C := o.2.

(* ===================================================================== *)
(** ** Properties the statements below are about *)
(* ===================================================================== *)

(** The five (pointer, count) pairs of a record, in declaration order. *)
Definition channels (r : MPResults) : list (ptr * Z) :=
  [ (face_landmarks r, face_count r);
    (left_hand_landmarks r, left_hand_count r);
    (right_hand_landmarks r, right_hand_count r);
    (pose_landmarks r, pose_count r);
    (pose_world_landmarks r, pose_world_count r) ].

(** Pointer non-null exactly when the count is positive, channel by
    channel. *)
Definition channels_consistent (r : MPResults) : Prop :=
  Forall (λ c : ptr * Z, c.1 ≠ nullptr ↔ 0 < c.2) (channels r).

(** Every channel pointer null and every count zero. *)
Definition channels_cleared (r : MPResults) : Prop :=
  Forall (λ c : ptr * Z, c.1 = nullptr ∧ c.2 = 0) (channels r).

(** Pointers that may be handed to [delete[]] one after the other on heap
    [h]: each non-null one is a live block, and none occurs twice. *)
Definition owned_ptrs (h : heap) (ps : list ptr) : Prop :=
  Forall (λ p : ptr, p = nullptr ∨ is_Some (h !! p)) ps ∧
  NoDup (filter (λ p : ptr, p ≠ nullptr) ps).

(** The record may be released on heap [h]: each non-null channel pointer
    is a live block, and no block is referenced by two channels. *)
Definition owned (h : heap) (r : MPResults) : Prop :=
  owned_ptrs h (channels r).*1.

(** [delete[]] on each pointer of a list, in order. *)
Fixpoint delete_arrays (ps : list ptr) (h : heap) : option heap :=
  match ps with
  | [] => Some h
  | p :: ps' => h ← delete_array p h; delete_arrays ps' h
  end.

(** The entry Landmark Conversion is specified to produce for a source
    landmark: position copied, confidences copied or 1.0. *)
Definition converted (lm : NormalizedLandmark) : MPLandmark :=
  {| x := n_x lm; y := n_y lm; z := n_z lm;
     visibility := default f32_one (n_visibility lm);
     presence := default f32_one (n_presence lm) |}.

Definition converted_world (lm : Landmark) : MPLandmark :=
  {| x := w_x lm; y := w_y lm; z := w_z lm;
     visibility := default f32_one (w_visibility lm);
     presence := default f32_one (w_presence lm) |}.

(** What a conversion call amounts to: nothing for an empty list, else one
    fresh block holding the converted list. *)
Inductive conversion {A : Type} (f : A → MPLandmark) (landmarks : list A) (h : heap)
  : ptr * Z * heap → Prop :=
  | conversion_empty :
      landmarks = [] → conversion f landmarks h (nullptr, 0, h)
  | conversion_block p :
      landmarks ≠ [] → p ≠ nullptr → h !! p = None →
      conversion f landmarks h
        (p, Z.of_nat (length landmarks), <[p := f <$> landmarks]> h).

(** A sequence that grows by one fixed positive step from each entry to
    the next. *)
Definition constant_step_increasing (ts : list Z) : Prop :=
  ∃ step, 0 < step ∧
    ∀ (k : nat) a b, ts !! k = Some a → ts !! S k = Some b → b = a + step.

(** Every timestamp already offered to the graph is below the counter. *)
Definition counter_fresh (p : MediaPipeProcessor) : Prop :=
  Forall (λ ts, ts < frame_count_ p) (input_video (graph_ p)).

(** *** Concrete inputs used by the examples *)

Definition config_full : MPConfig :=
  {| model_complexity := 1;
     min_detection_confidence := 0x3F000000;
     min_tracking_confidence := 0x3F000000;
     static_image_mode := false; smooth_landmarks := true;
     refine_face_landmarks := true; enable_segmentation := false |}.

(** A frame on which the graph accepts the packet and no stream has a
    packet pending. *)
Definition frame_quiet : GraphFrame :=
  {| image_frame := Returns ();
     AddPacketToInputStream := Returns StatusOk;
     GetPacket_face_landmarks := None;
     GetPacket_left_hand_landmarks := None;
     GetPacket_right_hand_landmarks := None;
     GetPacket_pose_landmarks := None;
     GetPacket_pose_world_landmarks := None;
     elapsed := 0 |}.

(** As [frame_quiet], with an empty landmark list pending on
    ["left_hand_landmarks"]. *)
Definition frame_empty_left_hand : GraphFrame :=
  {| image_frame := Returns ();
     AddPacketToInputStream := Returns StatusOk;
     GetPacket_face_landmarks := None;
     GetPacket_left_hand_landmarks := Some [];
     GetPacket_right_hand_landmarks := None;
     GetPacket_pose_landmarks := None;
     GetPacket_pose_world_landmarks := None;
     elapsed := 0 |}.

Definition landmark_bare : NormalizedLandmark :=
  {| n_x := 0x3F000000; n_y := 0x3E800000; n_z := 0xBDCCCCCD;
     n_visibility := None; n_presence := None |}.

Definition landmark_scored : NormalizedLandmark :=
  {| n_x := 0x3E800000; n_y := 0x3F000000; n_z := 0;
     n_visibility := Some 0x3F4CCCCD; n_presence := Some 0x3F666666 |}.

Definition world_landmark_bare : Landmark :=
  {| w_x := 0x3DCCCCCD; w_y := 0xBE4CCCCD; w_z := 0x3E99999A;
     w_visibility := None; w_presence := None |}.

(** A frame with two face landmarks, a one-landmark pose and its world
    pose pending. *)
Definition frame_face_pose : GraphFrame :=
  {| image_frame := Returns ();
     AddPacketToInputStream := Returns StatusOk;
     GetPacket_face_landmarks := Some [landmark_bare; landmark_scored];
     GetPacket_left_hand_landmarks := None;
     GetPacket_right_hand_landmarks := None;
     GetPacket_pose_landmarks := Some [landmark_scored];
     GetPacket_pose_world_landmarks := Some [world_landmark_bare];
     elapsed := 0x40A00000 |}.

(** A frame whose packet the input stream rejects. *)
Definition frame_rejected : GraphFrame :=
  {| image_frame := Returns ();
     AddPacketToInputStream := Returns (StatusError "stream closed");
     GetPacket_face_landmarks := None;
     GetPacket_left_hand_landmarks := None;
     GetPacket_right_hand_landmarks := None;
     GetPacket_pose_landmarks := None;
     GetPacket_pose_world_landmarks := None;
     elapsed := 0 |}.

(** The processor [MP_Create] returns when the graph starts. *)
Definition processor_fresh : MediaPipeProcessor :=
  {| config_ := config_full; graph_ := {| input_video := [] |}; frame_count_ := 0 |}.

(** The first call on a fresh processor, on [frame_face_pose], and the
    record it fills. *)
Definition call_face_pose
  : bool * option MediaPipeProcessor * option MPResults * World :=
  MP_Process 0%nat frame_face_pose (Some processor_fresh) (Some []) 640 480
    (Some MPResults_zero) World_init.

Definition record_face_pose : MPResults :=
  default MPResults_zero (call_results call_face_pose).

(* ===================================================================== *)
(** ** Properties of the calls as a whole *)
(* ===================================================================== *)

(** A world-coordinate landmark read as a normalized one, field by field. *)
Definition to_normalized (lm : Landmark) : NormalizedLandmark :=
  {| n_x := w_x lm; n_y := w_y lm; n_z := w_z lm;
     n_visibility := w_visibility lm; n_presence := w_presence lm |}.

(** What the streams hold for the five channels, in declaration order: the
    converted landmarks of the pending packet, [None] where none is
    pending. *)
Definition delivered (g : GraphFrame) : list (option (list MPLandmark)) :=
  [ (λ l : list NormalizedLandmark, converted <$> l) <$> GetPacket_face_landmarks g;
    (λ l : list NormalizedLandmark, converted <$> l)
      <$> GetPacket_left_hand_landmarks g;
    (λ l : list NormalizedLandmark, converted <$> l)
      <$> GetPacket_right_hand_landmarks g;
    (λ l : list NormalizedLandmark, converted <$> l) <$> GetPacket_pose_landmarks g;
    (λ l : list Landmark, converted_world <$> l)
      <$> GetPacket_pose_world_landmarks g ].

(** A channel [(pointer, count)] carries [o] on heap [h]: a non-empty list
    sits in a live block of that length; an empty list or no packet is the
    null pointer with count 0. *)
Definition channel_holds (h : heap) (c : ptr * Z) (o : option (list MPLandmark))
  : Prop :=
  match o with
  | Some (e :: es) =>
      c.1 ≠ nullptr ∧ c.2 = Z.of_nat (length (e :: es)) ∧ h !! c.1 = Some (e :: es)
  | Some [] | None => c = (nullptr, 0)
  end.

(** The call wraps the frame and so reaches [frame_count_++]. *)
Definition reaches_timestamp (g : GraphFrame) : bool :=
  match image_frame g with
  | Returns _ => true
  | Throws _ => false
  end.

(** A frame whose wrapping raises. *)
Definition frame_unwrappable : GraphFrame :=
  {| image_frame := Throws "bad frame";
     AddPacketToInputStream := Returns StatusOk;
     GetPacket_face_landmarks := Some [landmark_bare];
     GetPacket_left_hand_landmarks := None;
     GetPacket_right_hand_landmarks := None;
     GetPacket_pose_landmarks := None;
     GetPacket_pose_world_landmarks := None;
     elapsed := 0 |}.

(** A frame with a 2-landmark left hand and a 1-landmark right hand. *)
Definition frame_hands : GraphFrame :=
  {| image_frame := Returns ();
     AddPacketToInputStream := Returns StatusOk;
     GetPacket_face_landmarks := None;
     GetPacket_left_hand_landmarks := Some [landmark_scored; landmark_bare];
     GetPacket_right_hand_landmarks := Some [landmark_bare];
     GetPacket_pose_landmarks := None;
     GetPacket_pose_world_landmarks := None;
     elapsed := 0x40000000 |}.

(** A second call on [frame_hands] into the record [call_face_pose] filled,
    without releasing it first. *)
Definition call_reuse_unreleased
  : bool * option MediaPipeProcessor * option MPResults * World :=
  MP_Process 0%nat frame_hands (call_handle call_face_pose) (Some []) 640 480
    (Some record_face_pose) (call_world call_face_pose).

(* ===================================================================== *)
(** * Theorems *)
(* ===================================================================== *)

(** ** Machine integers *)

Lemma int64_wrap_id v : INT64_MIN ≤ v ≤ INT64_MAX → int64_wrap v = v.
Proof.
  unfold INT64_MIN, INT64_MAX, int64_wrap. intros Hv.
  rewrite Z.mod_small; lia.
Qed.

(** ** The heap *)

Lemma new_array_spec n (h : heap) :
  (new_array n h).1 ≠ nullptr ∧
  h !! (new_array n h).1 = None ∧
  (new_array n h).2 = <[(new_array n h).1 := replicate n indeterminate]> h.
Proof.
  unfold new_array. cbn [fst snd].
  pose proof (is_fresh ({[nullptr]} ∪ dom h)) as Hf.
  split_and!; [set_solver | | done].
  apply not_elem_of_dom. set_solver.
Qed.

Lemma delete_array_null (h : heap) : delete_array nullptr h = Some h.
Proof. done. Qed.

Lemma delete_array_live p (h : heap) arr :
  p ≠ nullptr → h !! p = Some arr → delete_array p h = Some (delete p h).
Proof. intros Hp Hl. unfold delete_array. rewrite decide_False, Hl; done. Qed.

Lemma store_landmark_live p i v (h : heap) arr :
  h !! p = Some arr → store_landmark p i v h = <[p := <[i := v]> arr]> h.
Proof.
  intros Hl. unfold store_landmark. apply map_eq. intros q.
  destruct (decide (p = q)) as [<- | Hne].
  - by rewrite lookup_alter_eq, lookup_insert_eq, Hl.
  - by rewrite lookup_alter_ne, lookup_insert_ne.
Qed.

(** ** Landmark Conversion *)

(** Writing one converted entry over slot [i] extends the converted prefix
    by one. *)
Lemma take_insert_converted {A B} (f : A → B) (l : list A) (arr : list B) i a :
  length arr = length l → l !! i = Some a →
  take (S i) (<[i := f a]> arr) ++ (f <$> drop (S i) l) = take i arr ++ (f <$> drop i l).
Proof.
  intros Hlen Hi.
  assert (i < length arr)%nat as Hlt by (rewrite Hlen; by eapply lookup_lt_Some).
  rewrite (take_S_r _ _ (f a)) by (by apply list_lookup_insert_eq).
  rewrite take_insert_ge by lia.
  rewrite (drop_S l a i Hi). by rewrite fmap_cons, <- app_assoc.
Qed.

(** Loop invariant: with [todo] iterations left from index [i], the block
    ends as its first [i] entries followed by the converted rest of the
    source. *)
Lemma ConvertLandmarks_loop_spec todo : ∀ i landmarks result (h : heap) arr,
  h !! result = Some arr → length arr = length landmarks →
  (i + todo)%nat = length landmarks →
  ConvertLandmarks_loop todo i landmarks result h
  = <[result := take i arr ++ (converted <$> drop i landmarks)]> h.
Proof.
  induction todo as [| todo IH]; intros i landmarks result h arr Hl Hlen Hi;
    cbn [ConvertLandmarks_loop].
  - rewrite drop_ge, take_ge, app_nil_r by lia. by rewrite insert_id.
  - destruct (landmarks !! i) as [lm |] eqn:Hlm.
    2: { apply lookup_ge_None in Hlm. lia. }
    cbv zeta. rewrite (store_landmark_live _ _ _ _ arr Hl).
    erewrite IH; [| apply lookup_insert_eq | by rewrite length_insert | lia].
    rewrite insert_insert_eq. f_equal.
    by apply (take_insert_converted converted).
Qed.

Lemma ConvertWorldLandmarks_loop_spec todo : ∀ i landmarks result (h : heap) arr,
  h !! result = Some arr → length arr = length landmarks →
  (i + todo)%nat = length landmarks →
  ConvertWorldLandmarks_loop todo i landmarks result h
  = <[result := take i arr ++ (converted_world <$> drop i landmarks)]> h.
Proof.
  induction todo as [| todo IH]; intros i landmarks result h arr Hl Hlen Hi;
    cbn [ConvertWorldLandmarks_loop].
  - rewrite drop_ge, take_ge, app_nil_r by lia. by rewrite insert_id.
  - destruct (landmarks !! i) as [lm |] eqn:Hlm.
    2: { apply lookup_ge_None in Hlm. lia. }
    cbv zeta. rewrite (store_landmark_live _ _ _ _ arr Hl).
    erewrite IH; [| apply lookup_insert_eq | by rewrite length_insert | lia].
    rewrite insert_insert_eq. f_equal.
    by apply (take_insert_converted converted_world).
Qed.

Lemma ConvertLandmarks_conversion landmarks (h : heap) :
  conversion converted landmarks h (ConvertLandmarks landmarks h).
Proof.
  unfold ConvertLandmarks.
  destruct (Z.eqb_spec (Z.of_nat (length landmarks)) 0) as [Hz | Hnz].
  - rewrite Hz. apply conversion_empty. apply nil_length_inv. lia.
  - rewrite Nat2Z.id.
    destruct (new_array_spec (length landmarks) h) as (Hp & Hfresh & Hh).
    destruct (new_array (length landmarks) h) as [p h1]. cbn [fst snd] in *. subst h1.
    rewrite (ConvertLandmarks_loop_spec _ _ _ _ _ (replicate (length landmarks) indeterminate));
      [| apply lookup_insert_eq | apply length_replicate | lia].
    rewrite insert_insert_eq. cbn [take app].
    change (drop 0 landmarks) with landmarks.
    apply conversion_block; [| done | done].
    intros Hnil. apply Hnz. by rewrite Hnil.
Qed.

Lemma ConvertWorldLandmarks_conversion landmarks (h : heap) :
  conversion converted_world landmarks h (ConvertWorldLandmarks landmarks h).
Proof.
  unfold ConvertWorldLandmarks.
  destruct (Z.eqb_spec (Z.of_nat (length landmarks)) 0) as [Hz | Hnz].
  - rewrite Hz. apply conversion_empty. apply nil_length_inv. lia.
  - rewrite Nat2Z.id.
    destruct (new_array_spec (length landmarks) h) as (Hp & Hfresh & Hh).
    destruct (new_array (length landmarks) h) as [p h1]. cbn [fst snd] in *. subst h1.
    rewrite (ConvertWorldLandmarks_loop_spec _ _ _ _ _ (replicate (length landmarks) indeterminate));
      [| apply lookup_insert_eq | apply length_replicate | lia].
    rewrite insert_insert_eq. cbn [take app].
    change (drop 0 landmarks) with landmarks.
    apply conversion_block; [| done | done].
    intros Hnil. apply Hnz. by rewrite Hnil.
Qed.

(** C5: a landmark list with zero entries converts to a null array pointer
    and count 0, allocating nothing, on the normalized-coordinate path and
    on the world-coordinate path alike. *)
Theorem conversion_of_empty_list_is_null
    (landmarks : NormalizedLandmarkList) (world : LandmarkList) (h : heap) :
  length landmarks = 0%nat → length world = 0%nat →
  ConvertLandmarks landmarks h = (nullptr, 0, h) ∧
  ConvertWorldLandmarks world h = (nullptr, 0, h).
Proof.
  intros Hl Hw.
  apply nil_length_inv in Hl. apply nil_length_inv in Hw. subst.
  split; reflexivity.
Qed.

Lemma conversion_of_empty_list_is_null_witness :
  ConvertLandmarks [] (<[5%N := [indeterminate]]> ∅)
    = (nullptr, 0, <[5%N := [indeterminate]]> ∅) ∧
  ConvertWorldLandmarks [] (<[5%N := [indeterminate]]> ∅)
    = (nullptr, 0, <[5%N := [indeterminate]]> ∅).
Proof.
  apply (conversion_of_empty_list_is_null [] [] (<[5%N := [indeterminate]]> ∅));
    reflexivity.
Defined.

(** C6: a non-empty landmark list converts to a non-null array of the same
    length whose entry [i] is entry [i] of the source: x, y, z unchanged,
    visibility and presence those of the source when it has them and 1.0
    when it has not. *)
Theorem ConvertLandmarks_copies_in_order
    (landmarks : NormalizedLandmarkList) (h : heap) :
  landmarks ≠ [] →
  let out := ConvertLandmarks landmarks h in
  out.1.1 ≠ nullptr ∧
  out.1.2 = Z.of_nat (length landmarks) ∧
  ∃ arr, out.2 !! out.1.1 = Some arr ∧
         length arr = length landmarks ∧
         ∀ (i : nat) lm, landmarks !! i = Some lm →
           ∃ e, arr !! i = Some e ∧
                x e = n_x lm ∧ y e = n_y lm ∧ z e = n_z lm ∧
                visibility e = default f32_one (n_visibility lm) ∧
                presence e = default f32_one (n_presence lm).
Proof.
  intros Hne out. subst out.
  destruct (ConvertLandmarks_conversion landmarks h) as [Hnil | p _ Hp Hfresh];
    [done |].
  cbn [fst snd]. split_and!; [done | done |].
  exists (converted <$> landmarks). split_and!.
  - apply lookup_insert_eq.
  - apply length_fmap.
  - intros i lm Hi. exists (converted lm). split; [| done].
    by rewrite list_lookup_fmap, Hi.
Qed.

Lemma ConvertLandmarks_copies_in_order_witness :
  let out := ConvertLandmarks [landmark_bare; landmark_scored] ∅ in
  out.1.1 ≠ nullptr ∧
  out.1.2 = 2 ∧
  ∃ arr, out.2 !! out.1.1 = Some arr ∧
         length arr = 2%nat ∧
         ∀ (i : nat) lm, [landmark_bare; landmark_scored] !! i = Some lm →
           ∃ e, arr !! i = Some e ∧
                x e = n_x lm ∧ y e = n_y lm ∧ z e = n_z lm ∧
                visibility e = default f32_one (n_visibility lm) ∧
                presence e = default f32_one (n_presence lm).
Proof.
  apply (ConvertLandmarks_copies_in_order [landmark_bare; landmark_scored] ∅).
  discriminate.
Defined.

(** The world-coordinate path copies the same way. *)
Lemma ConvertWorldLandmarks_copies_in_order (landmarks : LandmarkList) (h : heap) :
  landmarks ≠ [] →
  let out := ConvertWorldLandmarks landmarks h in
  out.1.1 ≠ nullptr ∧
  out.1.2 = Z.of_nat (length landmarks) ∧
  out.2 !! out.1.1 = Some (converted_world <$> landmarks).
Proof.
  intros Hne out. subst out.
  destruct (ConvertWorldLandmarks_conversion landmarks h) as [Hnil | p _ Hp Hfresh];
    [done |].
  cbn [fst snd]. split_and!; [done | done |]. apply lookup_insert_eq.
Qed.

(** A conversion leaves every block that was live before untouched. *)
Lemma conversion_frame {A} (f : A → MPLandmark) landmarks (h : heap) out (q : N) :
  conversion f landmarks h out → is_Some (h !! q) → out.2 !! q = h !! q.
Proof.
  intros [Hnil | p _ Hp Hfresh] Hq; cbn [snd]; [done |].
  rewrite lookup_insert_ne; [done |]. intros ->. rewrite Hfresh in Hq. by destruct Hq.
Qed.

(** ** ErrorContext *)

Lemma c_string_no_NUL buf : Forall (λ c, c ≠ NUL) (c_string buf).
Proof.
  induction buf as [| c buf IH]; cbn; [constructor |].
  destruct (decide (c = NUL)); by constructor.
Qed.

Lemma c_string_stops l rest :
  Forall (λ c, c ≠ NUL) l → c_string (l ++ NUL :: rest) = l.
Proof.
  induction 1 as [| c l Hc _ IH]; cbn.
  - by rewrite decide_True.
  - by rewrite decide_False, IH.
Qed.

Lemma c_string_c_str msg : c_string (c_str msg) = c_string (list_ascii_of_string msg).
Proof.
  unfold c_str. induction (list_ascii_of_string msg) as [| c l IH]; cbn.
  - by rewrite decide_True.
  - destruct (decide (c = NUL)); [done | by rewrite IH].
Qed.

Lemma c_string_id l : NUL ∉ l → c_string l = l.
Proof.
  induction l as [| c l IH]; intros Hl; cbn; [done |].
  apply not_elem_of_cons in Hl as [Hc Hl].
  rewrite decide_False by done. by rewrite IH.
Qed.

(** The stores of [strncpy] stay inside [[i, i + n)]. *)
Lemma strncpy_writes_range n : ∀ i src,
  Forall (λ w : nat * ascii, (i ≤ w.1 < i + n)%nat) (strncpy_writes i src n).
Proof.
  induction n as [| n IH]; intros i src; cbn; [constructor |].
  assert (∀ src', Forall (λ w : nat * ascii, (i ≤ w.1 < i + S n)%nat)
                    (strncpy_writes (S i) src' n)) as Htail.
  { intros src'. eapply Forall_impl; [apply IH |]. cbn. lia. }
  destruct src as [| c src']; [| destruct (decide (c = NUL))];
    (constructor; [cbn; lia | apply Htail]).
Qed.

(** [strncpy] overwrites [n] characters with the source string cut or
    NUL-padded to [n], and nothing else. *)
Lemma strncpy_writes_stored n : ∀ i src buf,
  (i + n ≤ length buf)%nat →
  store_all (strncpy_writes i src n) buf
  = take i buf ++ resize n NUL (c_string src) ++ drop (i + n) buf.
Proof.
  unfold store_all.
  induction n as [| n IH]; intros i src buf Hlen.
  - cbn. by rewrite resize_0, Nat.add_0_r, app_nil_l, take_drop.
  - assert (∀ c src', 
      foldl (λ b w, <[w.1 := w.2]> b) (<[i := c]> buf) (strncpy_writes (S i) src' n)
      = take i buf ++ (c :: resize n NUL (c_string src')) ++ drop (i + S n) buf)
      as Hstep.
    { intros c src'. rewrite IH by (rewrite length_insert; lia).
      rewrite (take_S_r _ _ c) by (apply list_lookup_insert_eq; lia).
      rewrite take_insert_ge by lia. rewrite drop_insert_lt by lia.
      rewrite <- app_assoc. cbn [app].
      by replace (S i + n)%nat with (i + S n)%nat by lia. }
    destruct src as [| c src']; cbn [strncpy_writes foldl fst snd c_string].
    + rewrite (Hstep NUL []). cbn [c_string]. by rewrite !resize_nil.
    + destruct (decide (c = NUL)) as [-> | Hc]; cbn [foldl fst snd].
      * rewrite (Hstep NUL []). cbn [c_string]. by rewrite !resize_nil.
      * by rewrite (Hstep c src').
Qed.

(** The buffer [SetError] leaves: the message cut or padded to [n]
    characters, then the terminator. *)
Lemma SetError_buffer (n : nat) (buf src : list ascii) :
  length buf = S n →
  <[n := NUL]> (strncpy buf src n) = resize n NUL (c_string src) ++ [NUL].
Proof.
  intros Hlen. unfold strncpy.
  rewrite strncpy_writes_stored by lia. rewrite take_0, app_nil_l. cbn [plus].
  assert (length (resize n NUL (c_string src)) = n) as Hr by apply length_resize.
  rewrite insert_app_r_alt by lia. rewrite Hr, Nat.sub_diag.
  destruct (drop n buf) as [| d rest] eqn:Hd.
  { apply (f_equal length) in Hd. rewrite length_drop in Hd. cbn in Hd. lia. }
  assert (rest = []) as ->.
  { apply (f_equal length) in Hd. rewrite length_drop in Hd. cbn in Hd.
    apply nil_length_inv. lia. }
  done.
Qed.

Lemma c_string_resize (n : nat) (l : list ascii) :
  Forall (λ c, c ≠ NUL) l → c_string (resize n NUL l ++ [NUL]) = take n l.
Proof.
  intros Hl. rewrite resize_spec, <- app_assoc.
  destruct (n - length l)%nat as [| k]; cbn [replicate app].
  - apply c_string_stops. by apply Forall_take.
  - apply c_string_stops. by apply Forall_take.
Qed.

Lemma store_all_snoc ws i c buf :
  store_all (ws ++ [(i, c)]) buf = <[i := c]> (store_all ws buf).
Proof. unfold store_all. by rewrite foldl_app. Qed.

Lemma g_last_error_insert t t' e (E : gmap nat MPError) :
  g_last_error t' (<[t := e]> E) = if decide (t = t') then e else g_last_error t' E.
Proof.
  unfold g_last_error. rewrite lookup_insert. by destruct (decide (t = t')).
Qed.

(** The slot [SetError] leaves. *)
Lemma SetError_slot (t : nat) (c : Z) (msg : string) (E : gmap nat MPError) :
  length (message (g_last_error t E)) = MESSAGE_SIZE →
  g_last_error t (SetError t c msg E)
  = {| code := c;
       message := resize (MESSAGE_SIZE - 1) NUL (c_string (c_str msg)) ++ [NUL] |}.
Proof.
  intros Hlen. unfold SetError.
  rewrite g_last_error_insert, decide_True by done.
  f_equal. by apply SetError_buffer.
Qed.

Lemma SetError_c_string (t : nat) (c : Z) (msg : string) (E : gmap nat MPError) :
  length (message (g_last_error t E)) = MESSAGE_SIZE →
  c_string (message (g_last_error t (SetError t c msg E)))
  = take (MESSAGE_SIZE - 1) (c_string (list_ascii_of_string msg)).
Proof.
  intros Hlen. rewrite SetError_slot by done. cbn [message].
  rewrite c_string_resize by apply c_string_no_NUL. by rewrite c_string_c_str.
Qed.

(** C8: for every code and every message, [SetError] overwrites the
    calling thread's slot with the code and with the message cut to 255
    characters (nothing of the previous message survives); the buffer keeps
    its 256 characters, its last one is NUL, every store lands inside it,
    and no other thread's slot changes. *)
Theorem SetError_truncates_and_terminates
    (t : thread) (c : Z) (msg : string) (E : gmap thread MPError) :
  length (message (g_last_error t E)) = MESSAGE_SIZE →
  let e := g_last_error t (SetError t c msg E) in
  code e = c ∧
  length (message e) = MESSAGE_SIZE ∧
  message e !! (MESSAGE_SIZE - 1)%nat = Some NUL ∧
  message e
    = resize (MESSAGE_SIZE - 1) NUL (c_string (list_ascii_of_string msg)) ++ [NUL] ∧
  c_string (message e)
    = take (MESSAGE_SIZE - 1) (c_string (list_ascii_of_string msg)) ∧
  (NUL ∉ list_ascii_of_string msg →
   c_string (message e) = take (MESSAGE_SIZE - 1) (list_ascii_of_string msg)) ∧
  message e = store_all (SetError_writes msg) (message (g_last_error t E)) ∧
  Forall (λ w : nat * ascii, (w.1 < MESSAGE_SIZE)%nat) (SetError_writes msg) ∧
  ∀ t' : thread, t' ≠ t → g_last_error t' (SetError t c msg E) = g_last_error t' E.
Proof.
  intros Hlen e.
  assert (message e
          = resize (MESSAGE_SIZE - 1) NUL (c_string (c_str msg)) ++ [NUL]) as Hm.
  { subst e. by rewrite SetError_slot. }
  assert (c_string (message e)
          = take (MESSAGE_SIZE - 1) (c_string (list_ascii_of_string msg))) as Hc.
  { subst e. by apply SetError_c_string. }
  split_and!.
  - subst e. unfold SetError. by rewrite g_last_error_insert, decide_True.
  - rewrite Hm, length_app, length_resize. reflexivity.
  - rewrite Hm. rewrite lookup_app_r by (rewrite length_resize; lia).
    by rewrite length_resize, Nat.sub_diag.
  - by rewrite Hm, c_string_c_str.
  - done.
  - intros Hnul. by rewrite Hc, c_string_id.
  - subst e. unfold SetError, SetError_writes.
    rewrite g_last_error_insert, decide_True by done.
    cbn [message]. by rewrite store_all_snoc.
  - unfold SetError_writes. apply Forall_app. split.
    + eapply Forall_impl; [apply strncpy_writes_range |].
      intros w. unfold MESSAGE_SIZE. cbn. lia.
    + constructor; [| constructor]. unfold MESSAGE_SIZE. cbn. lia.
  - intros t' Hne. unfold SetError.
    rewrite g_last_error_insert. by rewrite decide_False.
Qed.

Lemma SetError_truncates_and_terminates_witness :
  let e := g_last_error 0%nat (SetError 0%nat 20 "Invalid handle" ∅) in
  code e = 20 ∧
  length (message e) = MESSAGE_SIZE ∧
  message e !! (MESSAGE_SIZE - 1)%nat = Some NUL ∧
  message e
    = resize (MESSAGE_SIZE - 1) NUL (c_string (list_ascii_of_string "Invalid handle"))
      ++ [NUL] ∧
  c_string (message e)
    = take (MESSAGE_SIZE - 1) (c_string (list_ascii_of_string "Invalid handle")) ∧
  (NUL ∉ list_ascii_of_string "Invalid handle" →
   c_string (message e)
   = take (MESSAGE_SIZE - 1) (list_ascii_of_string "Invalid handle")) ∧
  message e
    = store_all (SetError_writes "Invalid handle") (message (g_last_error 0%nat ∅)) ∧
  Forall (λ w : nat * ascii, (w.1 < MESSAGE_SIZE)%nat)
    (SetError_writes "Invalid handle") ∧
  ∀ t' : thread, t' ≠ 0%nat →
    g_last_error t' (SetError 0%nat 20 "Invalid handle" ∅) = g_last_error t' ∅.
Proof.
  apply (SetError_truncates_and_terminates 0%nat 20 "Invalid handle" ∅).
  reflexivity.
Defined.

(** A message longer than the buffer: 300 characters are cut to 255. *)
Example SetError_long_message :
  let msg := string_of_list_ascii (replicate 300 "a"%char) in
  let e := g_last_error 0%nat (SetError 0%nat 3 msg ∅) in
  message e = replicate 255 "a"%char ++ [NUL].
Proof. vm_compute. reflexivity. Qed.

(** [ClearError] resets the code and empties the C string. *)
Lemma ClearError_clears (t : thread) (E : gmap thread MPError) :
  code (g_last_error t (ClearError t E)) = 0 ∧
  c_string (message (g_last_error t (ClearError t E))) = [].
Proof.
  unfold ClearError. rewrite g_last_error_insert, decide_True by done.
  split; [done |]. cbn [message].
  destruct (message (g_last_error t E)) as [| c m]; [done |].
  cbn. by rewrite decide_True.
Qed.

(** ** Ownership of the channel arrays *)

Lemma elem_of_insert_inv {A} (l : list A) (k : nat) x a :
  a ∈ <[k := x]> l → a = x ∨ a ∈ l.
Proof.
  revert k. induction l as [| b l IH]; intros k Ha; [by right |].
  destruct k as [| k]; cbn in Ha; apply elem_of_cons in Ha as [-> | Ha].
  - by left.
  - right. by apply elem_of_cons; right.
  - right. by apply elem_of_cons; left.
  - destruct (IH _ Ha) as [-> | Hl]; [by left | right; by apply elem_of_cons; right].
Qed.

(** Overwriting one slot by a value that is new to the list keeps the
    selected entries distinct. *)
Lemma NoDup_filter_insert {A} (P : A → Prop) `{!∀ a, Decision (P a)}
    (l : list A) (k : nat) x :
  NoDup (filter P l) → (P x → x ∉ l) → NoDup (filter P (<[k := x]> l)).
Proof.
  revert k. induction l as [| a l IH]; intros k Hnd Hx; [done |].
  assert (NoDup (filter P l)) as Hnd'.
  { rewrite filter_cons in Hnd. destruct (decide (P a)); [| done].
    by apply NoDup_cons in Hnd as [_ ?]. }
  assert (P x → x ∉ l) as Hx'.
  { intros HP Hin. apply (Hx HP). by apply elem_of_cons; right. }
  destruct k as [| k]; cbn [insert list_insert]; rewrite filter_cons.
  - destruct (decide (P x)) as [HP |]; [| done].
    apply NoDup_cons; split; [| done].
    intros [_ Hin]%list_elem_of_filter. by apply (Hx' HP).
  - destruct (decide (P a)) as [HP |]; [| by apply IH].
    apply NoDup_cons; split; [| by apply IH].
    intros [_ Hin]%list_elem_of_filter.
    apply elem_of_insert_inv in Hin as [-> | Hin].
    + apply (Hx HP). by apply elem_of_cons; left.
    + rewrite filter_cons_True in Hnd by done.
      apply NoDup_cons in Hnd as [Hnotin _]. apply Hnotin.
      by apply list_elem_of_filter.
Qed.

(** Storing the outcome of a conversion into channel [k] keeps the record
    releasable and its pointers in step with its counts. *)
Lemma conversion_keeps_owned {A} (f : A → MPLandmark) landmarks (h : heap) out
    (cs : list (N * Z)) (k : nat) :
  conversion f landmarks h out →
  owned_ptrs h cs.*1 → owned_ptrs out.2 (<[k := out.1]> cs).*1.
Proof.
  intros Hconv [Hlive Hnd]. unfold owned_ptrs. rewrite list_fmap_insert.
  destruct Hconv as [Hnil | p Hne Hp Hfresh]; cbn [fst snd].
  - split.
    + apply Forall_insert; [done | by left].
    + apply NoDup_filter_insert; [done | by intros []].
  - split.
    + apply Forall_insert.
      * eapply Forall_impl; [exact Hlive |]. intros q [-> | Hq]; [by left | right].
        apply lookup_insert_is_Some. destruct (decide (p = q)); eauto.
      * right. rewrite lookup_insert_eq. eauto.
    + apply NoDup_filter_insert; [done |].
      intros _ Hin. rewrite Forall_forall in Hlive.
      destruct (Hlive _ Hin) as [-> | Hq]; [done |].
      rewrite Hfresh in Hq. by destruct Hq.
Qed.

Lemma conversion_keeps_consistent {A} (f : A → MPLandmark) landmarks (h : heap) out
    (cs : list (N * Z)) (k : nat) :
  conversion f landmarks h out →
  Forall (λ c : N * Z, c.1 ≠ nullptr ↔ 0 < c.2) cs →
  Forall (λ c : N * Z, c.1 ≠ nullptr ↔ 0 < c.2) (<[k := out.1]> cs).
Proof.
  intros Hconv Hcs. apply Forall_insert; [done |].
  destruct Hconv as [Hnil | p Hne Hp Hfresh]; cbn [fst snd].
  - split; [done | lia].
  - split; [| done]. intros _. destruct landmarks; [done | cbn; lia].
Qed.

(** Releasing a list of owned pointers never meets an undefined
    [delete[]]. *)
Lemma delete_arrays_owned ps : ∀ h : heap,
  owned_ptrs h ps → is_Some (delete_arrays ps h).
Proof.
  induction ps as [| p ps IH]; intros h [Hlive Hnd]; cbn; [eauto |].
  apply Forall_cons in Hlive as [Hp Hlive].
  destruct (decide (p = nullptr)) as [-> | Hne].
  - rewrite delete_array_null. cbn. apply IH. split; [done |].
    by rewrite filter_cons_False in Hnd by (by intros []).
  - destruct Hp as [-> | [arr Harr]]; [done |].
    rewrite (delete_array_live _ _ arr) by done. cbn.
    rewrite filter_cons_True in Hnd by done.
    apply NoDup_cons in Hnd as [Hnotin Hnd].
    apply IH. split; [| done].
    rewrite Forall_forall in Hlive. apply Forall_forall. intros q Hq.
    destruct (Hlive _ Hq) as [-> | Hsome]; [by left |].
    destruct (decide (q = nullptr)) as [-> | Hq0]; [by left | right].
    rewrite lookup_delete_ne; [done |].
    intros ->. apply Hnotin. by apply list_elem_of_filter.
Qed.

(** ** FetchResults *)

(** One channel block of [FetchResults]: writing the outcome of a
    conversion into channel [k] of [r]. *)
Lemma channel_block_keeps {A} (f : A → MPLandmark) landmarks (h : heap) out
    (r r' : MPResults) (k : nat) :
  conversion f landmarks h out →
  channels r' = <[k := out.1]> (channels r) →
  owned h r ∧ channels_consistent r →
  owned out.2 r' ∧ channels_consistent r'.
Proof.
  intros Hconv Hch [Hown Hcons]. unfold owned, channels_consistent. rewrite Hch.
  split.
  - by eapply conversion_keeps_owned.
  - by eapply conversion_keeps_consistent.
Qed.

(** Settles a block polled with [ConvertLandmarks] for channel [k], given
    the equation [E] that names its outcome and the invariant [Hinv] of the
    record it starts from. *)
Ltac settle_block k E Hinv :=
  lazymatch type of Hinv with
  | owned _ ?r0 ∧ _ =>
      lazymatch type of E with
      | match ?packet with Some _ => _ | None => _ end = _ =>
          destruct packet as [?landmarks |];
          [ lazymatch type of E with
            | context [ConvertLandmarks ?l ?h] =>
                let Hc := fresh "Hc" in
                pose proof (ConvertLandmarks_conversion l h) as Hc;
                destruct (ConvertLandmarks l h) as [[? ?] ?];
                simplify_eq;
                apply (channel_block_keeps _ _ _ _ r0 _ k Hc);
                [reflexivity | exact Hinv]
            end
          | by simplify_eq ]
      end
  end.

(** Names the outcome of the next block of [FetchResults] and carries the
    invariant [Hinv] over it. *)
Ltac next_block k Hinv :=
  lazymatch goal with
  | |- context [match ?s with (_, _) => _ end] =>
      let E := fresh "E" in
      let H := fresh "Hinv" in
      destruct s as [?r ?h] eqn:E;
      match type of E with
      | _ = (?r1, ?h1) =>
          assert (owned h1 r1 ∧ channels_consistent r1) as H
            by (settle_block k E Hinv);
          clear E Hinv; rename H into Hinv
      end
  end.

(** Whatever the streams hold, [FetchResults] keeps a releasable,
    consistent record releasable and consistent. *)
Lemma FetchResults_keeps (g : GraphFrame) (r : MPResults) (h : heap) :
  owned h r ∧ channels_consistent r →
  owned (FetchResults g r h).2 (FetchResults g r h).1 ∧
  channels_consistent (FetchResults g r h).1.
Proof.
  intros Hinv. unfold FetchResults.
  next_block 0%nat Hinv. next_block 1%nat Hinv.
  next_block 2%nat Hinv. next_block 3%nat Hinv.
  destruct (GetPacket_pose_world_landmarks g) as [world |]; [| done].
  pose proof (ConvertWorldLandmarks_conversion world h3) as Hc.
  destruct (ConvertWorldLandmarks world h3) as [[p n] h4]. cbn [fst snd].
  apply (channel_block_keeps _ _ _ _ r3 _ 4%nat Hc); [reflexivity | exact Hinv].
Qed.

Lemma MPResults_zero_owned (h : heap) :
  owned h MPResults_zero ∧ channels_consistent MPResults_zero.
Proof.
  split.
  - split; [repeat constructor; by left | cbn; constructor].
  - repeat constructor; cbn; done || lia.
Qed.

(** The detection flags [FetchResults] leaves on a cleared record. *)
Lemma FetchResults_flags (g : GraphFrame) (h : heap) :
  let r := (FetchResults g MPResults_zero h).1 in
  (face_detected r = true ↔ 1 ≤ face_count r) ∧
  (pose_detected r = true ↔ 1 ≤ pose_count r) ∧
  (1 ≤ left_hand_count r ∨ 1 ≤ right_hand_count r → hands_detected r = true) ∧
  (hands_detected r = true ↔
   is_Some (GetPacket_left_hand_landmarks g) ∨
   is_Some (GetPacket_right_hand_landmarks g)).
Proof.
  unfold FetchResults.
  destruct (GetPacket_face_landmarks g), (GetPacket_left_hand_landmarks g),
    (GetPacket_right_hand_landmarks g), (GetPacket_pose_landmarks g),
    (GetPacket_pose_world_landmarks g);
    repeat match goal with
      | |- context [ConvertLandmarks ?l ?h0] =>
          destruct (ConvertLandmarks l h0) as [[? ?] ?]
      | |- context [ConvertWorldLandmarks ?l ?h0] =>
          destruct (ConvertWorldLandmarks l h0) as [[? ?] ?]
      end;
    cbn; rewrite ?Z.ltb_lt;
    (split_and!; [split; lia | split; lia | intros [? | ?]; done || lia |]);
    (split; [intros ?; eauto || done | intros [[? ?] | [? ?]]; done]).
Qed.

(** A channel with no packet pending stays as the initial clear left it. *)
Lemma FetchResults_unpolled (g : GraphFrame) (h : heap) :
  let r := (FetchResults g MPResults_zero h).1 in
  (GetPacket_face_landmarks g = None →
   face_landmarks r = nullptr ∧ face_count r = 0 ∧ face_detected r = false) ∧
  (GetPacket_left_hand_landmarks g = None →
   left_hand_landmarks r = nullptr ∧ left_hand_count r = 0) ∧
  (GetPacket_right_hand_landmarks g = None →
   right_hand_landmarks r = nullptr ∧ right_hand_count r = 0) ∧
  (GetPacket_pose_landmarks g = None →
   pose_landmarks r = nullptr ∧ pose_count r = 0 ∧ pose_detected r = false) ∧
  (GetPacket_pose_world_landmarks g = None →
   pose_world_landmarks r = nullptr ∧ pose_world_count r = 0).
Proof.
  unfold FetchResults.
  destruct (GetPacket_face_landmarks g), (GetPacket_left_hand_landmarks g),
    (GetPacket_right_hand_landmarks g), (GetPacket_pose_landmarks g),
    (GetPacket_pose_world_landmarks g);
    repeat match goal with
      | |- context [ConvertLandmarks ?l ?h0] =>
          destruct (ConvertLandmarks l h0) as [[? ?] ?]
      | |- context [ConvertWorldLandmarks ?l ?h0] =>
          destruct (ConvertWorldLandmarks l h0) as [[? ?] ?]
      end;
    cbn; split_and!; intros ?; done.
Qed.

(** ** Process and MP_Process *)

(** The only way [Process] returns [true]. *)
Lemma Process_success t g p pixels width height results w :
  call_ok (Process t g p pixels width height results w) = true →
  is_Some pixels ∧ is_Some results ∧
  image_frame g = Returns () ∧
  AddPacketToInputStream g = Returns StatusOk ∧
  Process t g p pixels width height results w
  = (true,
     {| config_ := config_ p;
        graph_ := {| input_video := input_video (graph_ p) ++ [frame_count_ p] |};
        frame_count_ := int64_wrap (frame_count_ p + 1) |},
     Some (set_timestamp_ms (frame_count_ p `quot` 1000)
             (set_processing_time_ms (elapsed g)
                (FetchResults g MPResults_zero (blocks w)).1)),
     {| last_errors := ClearError t (last_errors w);
        blocks := (FetchResults g MPResults_zero (blocks w)).2 |}).
Proof.
  unfold Process, call_ok.
  destruct pixels as [px |], results as [r |]; try discriminate.
  destruct (image_frame g) as [[] | what]; [| discriminate].
  destruct (AddPacketToInputStream g) as [[| msg] | what]; try discriminate.
  destruct (FetchResults g MPResults_zero (blocks w)) as [r' h'].
  intros _. split_and!; eauto.
Qed.

Lemma MP_Process_success t g handle pixels width height results w :
  call_ok (MP_Process t g handle pixels width height results w) = true →
  ∃ p, handle = Some p ∧
       call_ok (Process t g p pixels width height results w) = true ∧
       call_results (MP_Process t g handle pixels width height results w)
       = call_results (Process t g p pixels width height results w) ∧
       call_world (MP_Process t g handle pixels width height results w)
       = call_world (Process t g p pixels width height results w).
Proof.
  unfold MP_Process. destruct handle as [p |]; [| discriminate].
  destruct (Process t g p pixels width height results w) as [[[ok p'] r'] w'] eqn:E.
  intros Hok. exists p. rewrite ?E. by split_and!.
Qed.

(** A record returned by a successful call can be released on the heap the
    call leaves, and its pointers agree with its counts. *)
Lemma MP_Process_success_owned t g handle pixels width height results w :
  call_ok (MP_Process t g handle pixels width height results w) = true →
  ∃ r, call_results (MP_Process t g handle pixels width height results w) = Some r ∧
       owned (blocks (call_world (MP_Process t g handle pixels width height results w))) r ∧
       channels_consistent r.
Proof.
  intros (p & -> & Hok & -> & ->)%MP_Process_success.
  apply Process_success in Hok as (_ & _ & _ & _ & ->).
  unfold call_results, call_world. cbn [fst snd blocks].
  eexists. split; [reflexivity |].
  apply (FetchResults_keeps g MPResults_zero (blocks w)), MPResults_zero_owned.
Qed.

(** ** MP_ReleaseResults *)

Lemma MP_ReleaseResults_delete_arrays (r : MPResults) (w : World) :
  MP_ReleaseResults (Some r) w
  = h ← delete_arrays (channels r).*1 (blocks w);
    Some (Some MPResults_zero, {| last_errors := last_errors w; blocks := h |}).
Proof.
  unfold MP_ReleaseResults. cbn.
  repeat (match goal with
          | |- context [delete_array ?p ?h] => destruct (delete_array p h)
          end; cbn; [| done]).
  done.
Qed.

(** [delete[]] never makes a block appear. *)
Lemma delete_arrays_absent ps : ∀ (h h' : heap) (q : N),
  delete_arrays ps h = Some h' → h !! q = None → h' !! q = None.
Proof.
  induction ps as [| p ps IH]; intros h h' q Hd Hq; cbn in Hd; [by simplify_eq |].
  destruct (delete_array p h) as [h1 |] eqn:Hp; [cbn in Hd | done].
  apply (IH h1); [done |].
  unfold delete_array in Hp. destruct (decide (p = nullptr)); [by simplify_eq |].
  destruct (h !! p); simplify_eq. by apply lookup_delete_None; right.
Qed.

(** Every non-null pointer of the list is freed. *)
Lemma delete_arrays_frees ps : ∀ (h h' : heap),
  delete_arrays ps h = Some h' →
  Forall (λ p : N, p ≠ nullptr → h' !! p = None) ps.
Proof.
  induction ps as [| p ps IH]; intros h h' Hd; [constructor |].
  cbn in Hd. destruct (delete_array p h) as [h1 |] eqn:Hp; [cbn in Hd | done].
  constructor; [| by apply (IH h1)].
  intros Hne. apply (delete_arrays_absent ps h1); [done |].
  unfold delete_array in Hp. rewrite decide_False in Hp by done.
  destruct (h !! p); simplify_eq. apply lookup_delete_eq.
Qed.

(** Releasing an owned record succeeds, frees its arrays and leaves the
    zero record. *)
Lemma MP_ReleaseResults_owned (r : MPResults) (w : World) :
  owned (blocks w) r →
  ∃ h, MP_ReleaseResults (Some r) w
       = Some (Some MPResults_zero, {| last_errors := last_errors w; blocks := h |}) ∧
       Forall (λ p : N, p ≠ nullptr → h !! p = None) (channels r).*1.
Proof.
  intros Hown. rewrite MP_ReleaseResults_delete_arrays.
  destruct (delete_arrays_owned _ _ Hown) as [h Hh].
  exists h. rewrite Hh. split; [done |]. by eapply delete_arrays_frees.
Qed.

(** C3: releasing a record leaves every channel pointer null and every
    count zero (the whole record is zero) with its arrays freed, and
    releasing the released record again succeeds and changes nothing. *)
Theorem MP_ReleaseResults_clears_and_is_idempotent (r : MPResults) (w : World) :
  owned (blocks w) r →
  ∃ r' w',
    MP_ReleaseResults (Some r) w = Some (Some r', w') ∧
    r' = MPResults_zero ∧
    channels_cleared r' ∧
    Forall (λ p : ptr, p ≠ nullptr → blocks w' !! p = None) (channels r).*1 ∧
    MP_ReleaseResults (Some r') w' = Some (Some r', w').
Proof.
  intros Hown.
  destruct (MP_ReleaseResults_owned r w Hown) as (h & Hrel & Hfreed).
  eexists _, _. split; [exact Hrel |].
  split_and!; [done | by repeat constructor | done | done].
Qed.

Lemma MP_ReleaseResults_clears_and_is_idempotent_witness :
  ∃ r' w',
    MP_ReleaseResults (Some record_face_pose) (call_world call_face_pose)
      = Some (Some r', w') ∧
    r' = MPResults_zero ∧
    channels_cleared r' ∧
    Forall (λ p : ptr, p ≠ nullptr → blocks w' !! p = None)
      (channels record_face_pose).*1 ∧
    MP_ReleaseResults (Some r') w' = Some (Some r', w').
Proof.
  apply (MP_ReleaseResults_clears_and_is_idempotent
           record_face_pose (call_world call_face_pose)).
  unfold owned, owned_ptrs. compute_done.
Defined.

(** C9: after a successful [MP_Process], and after [MP_ReleaseResults], each
    of the five channels has a non-null array pointer exactly when its
    count is positive. *)
Theorem pointer_nonnull_iff_count_positive :
  (∀ t g handle pixels width height results w,
     call_ok (MP_Process t g handle pixels width height results w) = true →
     ∃ r, call_results (MP_Process t g handle pixels width height results w) = Some r ∧
          channels_consistent r) ∧
  (∀ r w, owned (blocks w) r →
     ∃ r' w', MP_ReleaseResults (Some r) w = Some (Some r', w') ∧
              channels_consistent r').
Proof.
  split.
  - intros t g handle pixels width height results w Hok.
    destruct (MP_Process_success_owned _ _ _ _ _ _ _ _ Hok) as (r & Hr & _ & Hcons).
    by exists r.
  - intros r w Hown.
    destruct (MP_ReleaseResults_owned r w Hown) as (h & Hrel & _).
    eexists _, _. split; [exact Hrel |]. apply MPResults_zero_owned. exact ∅.
Qed.

Lemma pointer_nonnull_iff_count_positive_witness :
  (∃ r, call_results call_face_pose = Some r ∧ channels_consistent r) ∧
  (∃ r' w', MP_ReleaseResults (Some record_face_pose) (call_world call_face_pose)
            = Some (Some r', w') ∧
            channels_consistent r').
Proof.
  split.
  - apply (proj1 pointer_nonnull_iff_count_positive
             0%nat frame_face_pose (Some processor_fresh) (Some []) 640 480
             (Some MPResults_zero) World_init).
    vm_compute. reflexivity.
  - apply (proj2 pointer_nonnull_iff_count_positive
             record_face_pose (call_world call_face_pose)).
    unfold owned, owned_ptrs. compute_done.
Defined.

(** C10: [MP_ReleaseResults] on a null record pointer returns at once:
    nothing is freed and nothing changes. *)
Theorem MP_ReleaseResults_null_is_noop (w : World) :
  ∃ out, MP_ReleaseResults None w = Some out ∧
         out.1 = None ∧
         out.2 = w ∧
         blocks out.2 = blocks w ∧
         ∀ t : thread, MP_GetLastError t None out.2 = MP_GetLastError t None w.
Proof.
  exists (None, w). split.
  - unfold MP_ReleaseResults. reflexivity.
  - cbn [fst snd]. by split_and!.
Qed.

(** C7: [MP_Process] on a null handle returns [false], leaves the result
    record and the heap as they were, and records error code 20, which
    [MP_GetLastError] on the same thread then returns. *)
Theorem MP_Process_null_handle_fails_cleanly
    (t : thread) (g : GraphFrame) (pixels : option (list Byte.byte))
    (width height : Z) (results : option MPResults) (w : World) :
  let out := MP_Process t g None pixels width height results w in
  call_ok out = false ∧
  call_handle out = None ∧
  call_results out = results ∧
  blocks (call_world out) = blocks w ∧
  code (MP_GetLastError t None (call_world out)) = 20 ∧
  code (MP_GetLastError t None (call_world out)) ≠ 0.
Proof.
  cbn. unfold MP_GetLastError, call_world, with_errors, SetError. cbn [snd last_errors].
  rewrite g_last_error_insert, decide_True by done. by split_and!.
Qed.

(** The message that goes with it. *)
Lemma MP_Process_null_handle_message
    (t : thread) (g : GraphFrame) (pixels : option (list Byte.byte))
    (width height : Z) (results : option MPResults) (w : World) :
  length (message (g_last_error t (last_errors w))) = MESSAGE_SIZE →
  c_string (message (MP_GetLastError t None
    (call_world (MP_Process t g None pixels width height results w))))
  = list_ascii_of_string "Invalid handle".
Proof.
  intros Hlen. unfold MP_GetLastError, MP_Process, call_world, with_errors.
  cbn [snd last_errors]. by rewrite SetError_c_string.
Qed.

(** ** Detection flags *)

(** X18: after a successful call the face and pose flags follow their
    counts, and a positive hand count sets the hands flag; the hands flag
    itself follows the presence of a hand packet. *)
Lemma MP_Process_flags t g handle pixels width height results w :
  call_ok (MP_Process t g handle pixels width height results w) = true →
  ∃ r, call_results (MP_Process t g handle pixels width height results w) = Some r ∧
       (face_detected r = true ↔ 1 ≤ face_count r) ∧
       (pose_detected r = true ↔ 1 ≤ pose_count r) ∧
       (1 ≤ left_hand_count r ∨ 1 ≤ right_hand_count r → hands_detected r = true) ∧
       (hands_detected r = true ↔
        is_Some (GetPacket_left_hand_landmarks g) ∨
        is_Some (GetPacket_right_hand_landmarks g)).
Proof.
  intros (p & -> & Hok & -> & _)%MP_Process_success.
  apply Process_success in Hok as (_ & _ & _ & _ & ->).
  unfold call_results. cbn [fst snd].
  eexists. split; [reflexivity |].
  apply (FetchResults_flags g (blocks w)).
Qed.

(** C1 (the hands flag): on a fresh processor, a frame whose only pending
    packet is an empty left-hand landmark list is processed successfully
    with [hands_detected] true although both hand counts are 0 and both
    hand arrays null, so the flag is not equivalent to a positive hand
    count. *)
Theorem hands_detected_on_empty_hand_packet :
  let out := MP_Process 0%nat frame_empty_left_hand (Some processor_fresh)
               (Some []) 640 480 (Some MPResults_zero) World_init in
  call_ok out = true ∧
  ∃ r, call_results out = Some r ∧
       hands_detected r = true ∧
       left_hand_count r = 0 ∧ right_hand_count r = 0 ∧
       left_hand_landmarks r = nullptr ∧ right_hand_landmarks r = nullptr ∧
       ¬ (hands_detected r = true ↔ 1 ≤ left_hand_count r ∨ 1 ≤ right_hand_count r).
Proof.
  cbn zeta. split; [reflexivity |].
  eexists. split; [vm_compute; reflexivity |].
  cbn. split_and!; try reflexivity.
  intros [Hflag _]. destruct (Hflag eq_refl); lia.
Qed.

(** ** The frame counter *)

(** A call with non-null handle, pixels and record always hands back the
    handle and the record; when it succeeds, the record carries the
    counter value it started from, divided by 1000. *)
Lemma MP_Process_call t g p px width height r w :
  ∃ ok p' r' w',
    MP_Process t g (Some p) (Some px) width height (Some r) w
    = (ok, Some p', Some r', w') ∧
    (ok = true →
     timestamp_ms r' = frame_count_ p `quot` 1000 ∧
     frame_count_ p' = int64_wrap (frame_count_ p + 1) ∧
     input_video (graph_ p') = input_video (graph_ p) ++ [frame_count_ p]).
Proof.
  unfold MP_Process, Process.
  destruct (image_frame g) as [[] | what];
    [destruct (AddPacketToInputStream g) as [[| msg] | what] |];
    try (eexists _, _, _, _; split; [reflexivity | discriminate]).
  destruct (FetchResults g MPResults_zero (blocks w)) as [r' h'].
  eexists _, _, _, _. split; [reflexivity |]. intros _. by split_and!.
Qed.

(** A call that stops before the timestamp is taken leaves the counter and
    the graph alone. *)
Lemma Process_counter_untouched t g p pixels width height results w :
  pixels = None ∨ results = None ∨ (∃ what, image_frame g = Throws what) →
  call_ok (Process t g p pixels width height results w) = false ∧
  call_handle (Process t g p pixels width height results w) = p.
Proof.
  unfold Process, call_ok, call_handle.
  intros [-> | [-> | [what ->]]]; [done | by destruct pixels |].
  by destruct pixels, results.
Qed.

(** C4: a call that reaches the timestamp assignment (handle, pixels and
    record non-null, the frame wrapped without exception) takes the counter
    value as timestamp, a value never offered to the graph before, and
    leaves the counter exactly one higher; when the input stream then
    rejects the packet the call fails with code 2, and the counter stays
    advanced. *)
Theorem frame_counter_advances_by_one
    (t : thread) (g : GraphFrame) (p : MediaPipeProcessor) (px : list Byte.byte)
    (width height : Z) (r : MPResults) (w : World) :
  image_frame g = Returns () →
  INT64_MIN ≤ frame_count_ p < INT64_MAX →
  counter_fresh p →
  let out := MP_Process t g (Some p) (Some px) width height (Some r) w in
  ∃ p', call_handle out = Some p' ∧
        frame_count_ p' = frame_count_ p + 1 ∧
        (frame_count_ p ∉ input_video (graph_ p)) ∧
        counter_fresh p' ∧
        ∀ msg, AddPacketToInputStream g = Returns (StatusError msg) →
          call_ok out = false ∧
          code (MP_GetLastError t (Some p') (call_world out)) = 2 ∧
          call_results out = Some MPResults_zero ∧
          input_video (graph_ p') = input_video (graph_ p) ++ [frame_count_ p].
Proof.
  intros Himg Hrange Hfresh out. subst out.
  assert (int64_wrap (frame_count_ p + 1) = frame_count_ p + 1) as Hwrap.
  { apply int64_wrap_id. unfold INT64_MIN, INT64_MAX in *. lia. }
  assert (frame_count_ p ∉ input_video (graph_ p)) as Hnew.
  { intros Hin. unfold counter_fresh in Hfresh. rewrite Forall_forall in Hfresh.
    specialize (Hfresh _ Hin). lia. }
  assert (Forall (λ ts, ts < frame_count_ p + 1) (input_video (graph_ p))) as Hold.
  { eapply Forall_impl; [exact Hfresh |]. cbn. lia. }
  unfold MP_Process, Process, call_handle, call_ok, call_results, call_world,
    counter_fresh.
  rewrite Himg.
  destruct (AddPacketToInputStream g) as [[| msg] | what].
  - destruct (FetchResults g MPResults_zero (blocks w)) as [r' h'].
    eexists. split; [reflexivity |]. cbn. rewrite Hwrap.
    split_and!; try done.
    apply Forall_app; split; [done | constructor; [lia | constructor]].
  - eexists. split; [reflexivity |]. cbn. rewrite Hwrap.
    split_and!; try done.
    + apply Forall_app; split; [done | constructor; [lia | constructor]].
    + intros msg' _. split_and!; try done.
      unfold MP_GetLastError, SetError. cbn.
      by rewrite g_last_error_insert, decide_True.
  - eexists. split; [reflexivity |]. cbn. rewrite Hwrap.
    by split_and!.
Qed.

Lemma frame_counter_advances_by_one_witness :
  let out := MP_Process 0%nat frame_rejected (Some processor_fresh) (Some [])
               640 480 (Some MPResults_zero) World_init in
  ∃ p', call_handle out = Some p' ∧
        frame_count_ p' = frame_count_ processor_fresh + 1 ∧
        (frame_count_ processor_fresh ∉ input_video (graph_ processor_fresh)) ∧
        counter_fresh p' ∧
        ∀ msg, AddPacketToInputStream frame_rejected = Returns (StatusError msg) →
          call_ok out = false ∧
          code (MP_GetLastError 0%nat (Some p') (call_world out)) = 2 ∧
          call_results out = Some MPResults_zero ∧
          input_video (graph_ p')
          = input_video (graph_ processor_fresh) ++ [frame_count_ processor_fresh].
Proof.
  apply (frame_counter_advances_by_one 0%nat frame_rejected processor_fresh []
           640 480 MPResults_zero World_init).
  - reflexivity.
  - unfold INT64_MIN, INT64_MAX. cbn. lia.
  - unfold counter_fresh. cbn. constructor.
Defined.

(** ** Reported timestamps *)

(** Dividing by 1000 turns a step of one into a step of zero or one. *)
Lemma quot_1000_step (c : Z) :
  0 ≤ c → c `quot` 1000 ≤ (c + 1) `quot` 1000 ≤ c `quot` 1000 + 1.
Proof.
  intros Hc. rewrite !Z.quot_div_nonneg by lia.
  pose proof (Z.div_mod c 1000 ltac:(lia)) as H1.
  pose proof (Z.mod_pos_bound c 1000 ltac:(lia)) as H2.
  pose proof (Z.div_mod (c + 1) 1000 ltac:(lia)) as H3.
  pose proof (Z.mod_pos_bound (c + 1) 1000 ltac:(lia)) as H4.
  lia.
Qed.

(** Run of consecutive successful calls, by induction on the frames. *)
Lemma submit_frames_run t gs : ∀ p px width height r w,
  0 ≤ frame_count_ p →
  frame_count_ p + Z.of_nat (length gs) ≤ INT64_MAX →
  Forall (λ o : bool * MPResults, o.1 = true)
    (submit_frames t gs p px width height r w).1.1 →
  length (submit_frames t gs p px width height r w).1.1 = length gs ∧
  (∀ (k : nat) o, (submit_frames t gs p px width height r w).1.1 !! k = Some o →
     timestamp_ms o.2 = (frame_count_ p + Z.of_nat k) `quot` 1000) ∧
  frame_count_ (submit_frames t gs p px width height r w).1.2
  = frame_count_ p + Z.of_nat (length gs) ∧
  input_video (graph_ (submit_frames t gs p px width height r w).1.2)
  = input_video (graph_ p)
    ++ ((λ k : nat, frame_count_ p + Z.of_nat k) <$> seq 0 (length gs)).
Proof.
  induction gs as [| g gs IH]; intros p px width height r w Hc Hmax Hall.
  - cbn. split_and!; [done | intros k o Hk; by destruct k | lia | by rewrite app_nil_r].
  - cbn [submit_frames] in *.
    destruct (MP_Process_call t g p px width height r w)
      as (ok & p' & r' & w' & E & Hsucc).
    rewrite E in *.
    destruct (submit_frames t gs p' px width height r' w') as [[outs p_end] w_end] eqn:Erun.
    cbn [fst snd] in *.
    apply Forall_cons in Hall as [Hok Hall]. cbn in Hok.
    destruct (Hsucc Hok) as (Hts & Hcount & Hsent).
    rewrite int64_wrap_id in Hcount
      by (unfold INT64_MIN, INT64_MAX in *; cbn [length] in Hmax; lia).
    specialize (IH p' px width height r' w'). rewrite Erun in IH. cbn [fst snd] in IH.
    destruct IH as (Hlen & Hk & Hend & Hvideo);
      [lia | cbn [length] in Hmax; lia | done |].
    split_and!.
    + cbn. by rewrite Hlen.
    + intros [| k] o Ho; cbn in Ho.
      * simplify_eq. cbn. by rewrite Z.add_0_r.
      * rewrite (Hk k o Ho), Hcount. f_equal. lia.
    + rewrite Hend, Hcount. cbn [length]. lia.
    + rewrite Hvideo, Hsent, Hcount, <- app_assoc. f_equal.
      cbn [length seq fmap list_fmap app]. rewrite Z.add_0_r. f_equal.
      rewrite <- fmap_S_seq, <- list_fmap_compose.
      apply list_fmap_ext. intros ? k ?. cbn. lia.
Qed.

(** C2 as stated fails: two consecutive successful calls on a fresh
    processor both report [timestamp_ms] 0, a repeat, so the reported
    sequence does not grow by a positive constant step. *)
Lemma timestamps_repeat_on_consecutive_calls :
  let run := submit_frames 0%nat [frame_quiet; frame_quiet] processor_fresh []
               640 480 MPResults_zero World_init in
  Forall (λ o : bool * MPResults, o.1 = true) run.1.1 ∧
  (λ o : bool * MPResults, timestamp_ms o.2) <$> run.1.1 = [0; 0] ∧
  ¬ constant_step_increasing ((λ o : bool * MPResults, timestamp_ms o.2) <$> run.1.1).
Proof.
  cbn zeta. split_and!.
  - vm_compute. by repeat constructor.
  - vm_compute. reflexivity.
  - intros (step & Hpos & Hstep).
    specialize (Hstep 0%nat 0 0). vm_compute in Hstep.
    specialize (Hstep eq_refl eq_refl). discriminate Hstep || lia.
Qed.

(** C2, amended: over N consecutive successful calls on a processor whose
    counter starts at [c], call number [k] (from 0) reports
    [timestamp_ms = (c + k) / 1000]; the reported sequence is therefore
    non-decreasing and moves by 0 or 1 between consecutive calls, while
    the timestamps handed to the graph are [c, c + 1, ..., c + N - 1],
    strictly increasing by the constant step 1 without gap or repeat. *)
Theorem timestamps_are_counter_div_1000
    (t : thread) (gs : list GraphFrame) (p : MediaPipeProcessor)
    (px : list Byte.byte) (width height : Z) (r : MPResults) (w : World) :
  0 ≤ frame_count_ p →
  frame_count_ p + Z.of_nat (length gs) ≤ INT64_MAX →
  let run := submit_frames t gs p px width height r w in
  Forall (λ o : bool * MPResults, o.1 = true) run.1.1 →
  length run.1.1 = length gs ∧
  (∀ (k : nat) o, run.1.1 !! k = Some o →
     timestamp_ms o.2 = (frame_count_ p + Z.of_nat k) `quot` 1000) ∧
  (∀ (k : nat) a b, run.1.1 !! k = Some a → run.1.1 !! S k = Some b →
     timestamp_ms a.2 ≤ timestamp_ms b.2 ≤ timestamp_ms a.2 + 1) ∧
  input_video (graph_ run.1.2)
  = input_video (graph_ p)
    ++ ((λ k : nat, frame_count_ p + Z.of_nat k) <$> seq 0 (length gs)) ∧
  frame_count_ run.1.2 = frame_count_ p + Z.of_nat (length gs).
Proof.
  intros Hc Hmax run Hall. subst run.
  destruct (submit_frames_run t gs p px width height r w Hc Hmax Hall)
    as (Hlen & Hk & Hend & Hvideo).
  split_and!; try done.
  intros k a b Ha Hb. rewrite (Hk _ _ Ha), (Hk _ _ Hb).
  replace (frame_count_ p + Z.of_nat (S k)) with (frame_count_ p + Z.of_nat k + 1) by lia.
  apply quot_1000_step. lia.
Qed.

Lemma timestamps_are_counter_div_1000_witness :
  let gs := [frame_quiet; frame_face_pose; frame_quiet] in
  let run := submit_frames 0%nat gs processor_fresh [] 640 480 MPResults_zero
               World_init in
  length run.1.1 = length gs ∧
  (∀ (k : nat) o, run.1.1 !! k = Some o →
     timestamp_ms o.2 = (frame_count_ processor_fresh + Z.of_nat k) `quot` 1000) ∧
  (∀ (k : nat) a b, run.1.1 !! k = Some a → run.1.1 !! S k = Some b →
     timestamp_ms a.2 ≤ timestamp_ms b.2 ≤ timestamp_ms a.2 + 1) ∧
  input_video (graph_ run.1.2)
  = input_video (graph_ processor_fresh)
    ++ ((λ k : nat, frame_count_ processor_fresh + Z.of_nat k) <$> seq 0 (length gs)) ∧
  frame_count_ run.1.2 = frame_count_ processor_fresh + Z.of_nat (length gs).
Proof.
  apply (timestamps_are_counter_div_1000 0%nat
           [frame_quiet; frame_face_pose; frame_quiet] processor_fresh []
           640 480 MPResults_zero World_init).
  - cbn. lia.
  - unfold INT64_MAX. cbn. lia.
  - vm_compute. repeat constructor.
Defined.

(** The reported value moves only when the counter crosses a multiple of
    1000: calls number 999 and 1000 of a processor report 0 and 1. *)
Example timestamp_moves_at_1000 :
  let p := {| config_ := config_full;
              graph_ := {| input_video := [] |};
              frame_count_ := 999 |} in
  (λ o : bool * MPResults, timestamp_ms o.2)
    <$> (submit_frames 0%nat [frame_quiet; frame_quiet] p [] 640 480
           MPResults_zero World_init).1.1
  = [0; 1].
Proof. vm_compute. reflexivity. Qed.

(** [MP_Create] on a graph that starts yields [processor_fresh]. *)
Example MP_Create_started :
  (MP_Create 0%nat Started (Some config_full) World_init).1 = Some processor_fresh.
Proof. reflexivity. Qed.

Example MP_Create_null_config :
  let out := MP_Create 0%nat Started None World_init in
  out.1 = None ∧ code (MP_GetLastError 0%nat None out.2) = 10.
Proof. cbn zeta. split; vm_compute; reflexivity. Qed.

(* ===================================================================== *)
(** * Further properties of the bridge *)
(* ===================================================================== *)

(** ** The two conversion paths *)

(** [ConvertLandmarks] in closed form. *)
Lemma ConvertLandmarks_eq (landmarks : NormalizedLandmarkList) (h : heap) :
  ConvertLandmarks landmarks h
  = match landmarks with
    | [] => (nullptr, 0, h)
    | _ :: _ =>
        let p := fresh ({[nullptr]} ∪ dom h) in
        (p, Z.of_nat (length landmarks), <[p := converted <$> landmarks]> h)
    end.
Proof.
  destruct landmarks as [| lm landmarks]; [done |].
  unfold ConvertLandmarks.
  destruct (Z.eqb_spec (Z.of_nat (length (lm :: landmarks))) 0) as [Hz | _];
    [cbn in Hz; lia |].
  rewrite Nat2Z.id. unfold new_array. cbv zeta.
  rewrite (ConvertLandmarks_loop_spec _ _ _ _ _
             (replicate (length (lm :: landmarks)) indeterminate));
    [| apply lookup_insert_eq | apply length_replicate | lia].
  by rewrite insert_insert_eq, take_0.
Qed.

Lemma ConvertWorldLandmarks_eq (landmarks : LandmarkList) (h : heap) :
  ConvertWorldLandmarks landmarks h
  = match landmarks with
    | [] => (nullptr, 0, h)
    | _ :: _ =>
        let p := fresh ({[nullptr]} ∪ dom h) in
        (p, Z.of_nat (length landmarks), <[p := converted_world <$> landmarks]> h)
    end.
Proof.
  destruct landmarks as [| lm landmarks]; [done |].
  unfold ConvertWorldLandmarks.
  destruct (Z.eqb_spec (Z.of_nat (length (lm :: landmarks))) 0) as [Hz | _];
    [cbn in Hz; lia |].
  rewrite Nat2Z.id. unfold new_array. cbv zeta.
  rewrite (ConvertWorldLandmarks_loop_spec _ _ _ _ _
             (replicate (length (lm :: landmarks)) indeterminate));
    [| apply lookup_insert_eq | apply length_replicate | lia].
  by rewrite insert_insert_eq, take_0.
Qed.

(** X1: a non-empty world-coordinate list converts to a fresh non-null
    block (not live before the call) of the same length whose entry [i]
    copies x, y, z of source entry [i] and takes visibility and presence
    from it, or 1.0 where it has none; every block that was live before is
    left as it was. *)
Theorem ConvertWorldLandmarks_fresh_copy (landmarks : LandmarkList) (h : heap) :
  landmarks ≠ [] →
  let out := ConvertWorldLandmarks landmarks h in
  out.1.1 ≠ nullptr ∧
  h !! out.1.1 = None ∧
  out.1.2 = Z.of_nat (length landmarks) ∧
  (∃ arr, out.2 !! out.1.1 = Some arr ∧
          length arr = length landmarks ∧
          ∀ (i : nat) lm, landmarks !! i = Some lm →
            ∃ e, arr !! i = Some e ∧
                 x e = w_x lm ∧ y e = w_y lm ∧ z e = w_z lm ∧
                 visibility e = default f32_one (w_visibility lm) ∧
                 presence e = default f32_one (w_presence lm)) ∧
  ∀ q : ptr, is_Some (h !! q) → out.2 !! q = h !! q.
Proof.
  intros Hne out.
  pose proof (ConvertWorldLandmarks_conversion landmarks h) as Hconv.
  fold out in Hconv.
  split_and!.
  - destruct Hconv; [done | done].
  - destruct Hconv; [done | done].
  - destruct Hconv as [-> |]; [done | done].
  - destruct Hconv as [-> | p _ Hp Hfresh]; [done |]. cbn [fst snd].
    exists (converted_world <$> landmarks). split_and!.
    + apply lookup_insert_eq.
    + apply length_fmap.
    + intros i lm Hi. exists (converted_world lm). split; [| done].
      by rewrite list_lookup_fmap, Hi.
  - intros q Hq. by eapply conversion_frame.
Qed.

Lemma ConvertWorldLandmarks_fresh_copy_witness :
  let landmarks := [world_landmark_bare; world_landmark_bare] in
  let h : heap := <[1%N := [indeterminate]]> ∅ in
  let out := ConvertWorldLandmarks landmarks h in
  out.1.1 ≠ nullptr ∧
  h !! out.1.1 = None ∧
  out.1.2 = Z.of_nat (length landmarks) ∧
  (∃ arr, out.2 !! out.1.1 = Some arr ∧
          length arr = length landmarks ∧
          ∀ (i : nat) lm, landmarks !! i = Some lm →
            ∃ e, arr !! i = Some e ∧
                 x e = w_x lm ∧ y e = w_y lm ∧ z e = w_z lm ∧
                 visibility e = default f32_one (w_visibility lm) ∧
                 presence e = default f32_one (w_presence lm)) ∧
  ∀ q : ptr, is_Some (h !! q) → out.2 !! q = h !! q.
Proof.
  apply (ConvertWorldLandmarks_fresh_copy
           [world_landmark_bare; world_landmark_bare] (<[1%N := [indeterminate]]> ∅)).
  discriminate.
Defined.

(** X2: the world-coordinate path is the normalized path: converting a
    world list gives the pointer, count and heap that converting the same
    landmarks read as normalized ones gives. *)
Theorem ConvertWorldLandmarks_as_ConvertLandmarks (landmarks : LandmarkList) (h : heap) :
  ConvertWorldLandmarks landmarks h = ConvertLandmarks (to_normalized <$> landmarks) h.
Proof.
  rewrite ConvertWorldLandmarks_eq, ConvertLandmarks_eq.
  destruct landmarks as [| lm landmarks]; [done |].
  rewrite fmap_cons. cbv zeta. rewrite <- fmap_cons.
  rewrite length_fmap, <- list_fmap_compose.
  do 2 f_equal.
Qed.

(** ** What a successful call delivers *)

Lemma channel_holds_mono {A} (f : A → MPLandmark) landmarks (h : heap) out c o :
  conversion f landmarks h out → channel_holds h c o → channel_holds out.2 c o.
Proof.
  intros [Hnil | p _ Hp Hfresh]; [done |]. cbn [snd].
  destruct o as [[| e es] |]; [done | | done].
  intros (Hc & Hn & Hl). split_and!; [done | done |].
  rewrite lookup_insert_ne; [done |]. intros ->. by rewrite Hfresh in Hl.
Qed.

Lemma channel_holds_conversion {A} (f : A → MPLandmark) landmarks (h : heap) out :
  conversion f landmarks h out → channel_holds out.2 out.1 (Some (f <$> landmarks)).
Proof.
  intros [-> | p Hne Hp Hfresh]; [done |]. cbn [fst snd].
  destruct landmarks as [| lm landmarks]; [done |]. rewrite fmap_cons.
  split_and!; [done | cbn [length]; by rewrite length_fmap |].
  by rewrite lookup_insert_eq.
Qed.

(** Putting a fresh block into a null slot: releasing the new list from
    the new heap ends where releasing the old list from the old heap did. *)
Lemma delete_arrays_insert_fresh ps : ∀ (k : nat) (h h0 : heap) (p : N) v,
  delete_arrays ps h = Some h0 → ps !! k = Some nullptr →
  h !! p = None → p ≠ nullptr →
  delete_arrays (<[k := p]> ps) (<[p := v]> h) = Some h0.
Proof.
  induction ps as [| q ps IH]; intros k h h0 p v Hd Hk Hfresh Hp; [done |].
  destruct k as [| k]; cbn in Hk; cbn [insert list_insert delete_arrays].
  - simplify_eq. cbn [delete_arrays] in Hd.
    rewrite delete_array_null in Hd. cbn in Hd.
    rewrite (delete_array_live p _ v) by (done || apply lookup_insert_eq). cbn.
    by rewrite delete_insert_eq, delete_id.
  - cbn [delete_arrays] in Hd.
    destruct (delete_array q h) as [h1 |] eqn:Hq; [cbn in Hd | done].
    unfold delete_array in Hq |- *. destruct (decide (q = nullptr)) as [-> | Hq0].
    + simplify_eq. cbn. by apply IH.
    + destruct (h !! q) as [arr |] eqn:Harr; [| done]. simplify_eq.
      assert (p ≠ q) as Hpq by (intros ->; by rewrite Hfresh in Harr).
      rewrite lookup_insert_ne, Harr by done. cbn.
      rewrite delete_insert_ne by done.
      apply IH; [done | done | | done].
      by apply lookup_delete_None; right.
Qed.

(** One block of [FetchResults] on a channel [k] that is still cleared:
    the record carries what it carried plus the converted packet, and
    releasing it still leads back to the heap [h0] of before the call. *)
Lemma channel_block_delivers {A} (f : A → MPLandmark) landmarks (h : heap) out
    (r r' : MPResults) (k : nat) (os : list (option (list MPLandmark))) (h0 : heap) :
  conversion f landmarks h out →
  channels r' = <[k := out.1]> (channels r) →
  os !! k = Some None →
  Forall2 (channel_holds h) (channels r) os ∧
  delete_arrays (channels r).*1 h = Some h0 →
  Forall2 (channel_holds out.2) (channels r') (<[k := Some (f <$> landmarks)]> os) ∧
  delete_arrays (channels r').*1 out.2 = Some h0.
Proof.
  intros Hconv Hch Hk [Hholds Hdel]. rewrite Hch. split.
  - apply Forall2_insert; [| by apply (channel_holds_conversion f landmarks h out)].
    eapply Forall2_impl; [exact Hholds |].
    intros c o. by apply (channel_holds_mono f landmarks h out).
  - rewrite list_fmap_insert.
    destruct (Forall2_lookup_r _ _ _ _ _ Hholds Hk) as (c & Hc & Hnull).
    cbn in Hnull. subst c.
    assert ((channels r).*1 !! k = Some nullptr) as Hptr
      by (by rewrite list_lookup_fmap, Hc).
    destruct Hconv as [Hnil | p Hne Hp Hfresh]; cbn [fst snd].
    + by rewrite list_insert_id.
    + by apply delete_arrays_insert_fresh.
Qed.

(** Carries the delivery invariant [Hinv] over the next block of
    [FetchResults], which fills channel [k] and leaves the streams' view
    [os']. *)
Ltac deliver_block k os' Hinv :=
  lazymatch goal with
  | |- context [match ?s with (_, _) => _ end] =>
      let E := fresh "E" in
      let H := fresh "Hinv" in
      destruct s as [?r ?h] eqn:E;
      lazymatch type of E with
      | _ = (?r1, ?h1) =>
          lazymatch type of Hinv with
          | Forall2 _ (channels ?r0) ?os ∧ delete_arrays _ _ = Some ?hbase =>
              assert (Forall2 (channel_holds h1) (channels r1) os' ∧
                      delete_arrays (channels r1).*1 h1 = Some hbase) as H
                by (lazymatch type of E with
                    | match ?packet with Some _ => _ | None => _ end = _ =>
                        destruct packet as [?landmarks |];
                        [ lazymatch type of E with
                          | context [ConvertLandmarks ?l ?h] =>
                              let Hc := fresh "Hc" in
                              pose proof (ConvertLandmarks_conversion l h) as Hc;
                              destruct (ConvertLandmarks l h) as [[? ?] ?];
                              simplify_eq;
                              apply (channel_block_delivers _ _ _ _ r0 _ k os hbase Hc);
                              [reflexivity | reflexivity | exact Hinv]
                          end
                        | simplify_eq; exact Hinv ]
                    end)
          end
      end;
      clear E Hinv; rename H into Hinv
  end.

(** [FetchResults] on a cleared record: each channel carries what its
    stream held, and releasing the record leads back to the heap the fetch
    started from. *)
Lemma FetchResults_delivers (g : GraphFrame) (h : heap) :
  Forall2 (channel_holds (FetchResults g MPResults_zero h).2)
    (channels (FetchResults g MPResults_zero h).1) (delivered g) ∧
  delete_arrays (channels (FetchResults g MPResults_zero h).1).*1
    (FetchResults g MPResults_zero h).2 = Some h.
Proof.
  assert (Forall2 (channel_holds h) (channels MPResults_zero)
            [None; None; None; None; None] ∧
          delete_arrays (channels MPResults_zero).*1 h = Some h) as Hinv.
  { split; [by repeat constructor | reflexivity]. }
  unfold FetchResults, delivered.
  deliver_block 0%nat
    [(λ l : list NormalizedLandmark, converted <$> l) <$> GetPacket_face_landmarks g;
     None; None; None; @None (list MPLandmark)] Hinv.
  deliver_block 1%nat
    [(λ l : list NormalizedLandmark, converted <$> l) <$> GetPacket_face_landmarks g;
     (λ l : list NormalizedLandmark, converted <$> l)
       <$> GetPacket_left_hand_landmarks g;
     None; None; @None (list MPLandmark)] Hinv.
  deliver_block 2%nat
    [(λ l : list NormalizedLandmark, converted <$> l) <$> GetPacket_face_landmarks g;
     (λ l : list NormalizedLandmark, converted <$> l)
       <$> GetPacket_left_hand_landmarks g;
     (λ l : list NormalizedLandmark, converted <$> l)
       <$> GetPacket_right_hand_landmarks g;
     None; @None (list MPLandmark)] Hinv.
  deliver_block 3%nat
    [(λ l : list NormalizedLandmark, converted <$> l) <$> GetPacket_face_landmarks g;
     (λ l : list NormalizedLandmark, converted <$> l)
       <$> GetPacket_left_hand_landmarks g;
     (λ l : list NormalizedLandmark, converted <$> l)
       <$> GetPacket_right_hand_landmarks g;
     (λ l : list NormalizedLandmark, converted <$> l) <$> GetPacket_pose_landmarks g;
     @None (list MPLandmark)] Hinv.
  destruct (GetPacket_pose_world_landmarks g) as [world |]; [| exact Hinv].
  lazymatch type of Hinv with
  | Forall2 (channel_holds ?hk) (channels ?rk) ?os ∧ _ =>
      pose proof (ConvertWorldLandmarks_conversion world hk) as Hc;
      destruct (ConvertWorldLandmarks world hk) as [[p n] h'];
      cbn [fst snd];
      apply (channel_block_delivers _ _ _ _ rk _ 4%nat os h Hc);
      [reflexivity | reflexivity | exact Hinv]
  end.
Qed.

(** [delete[]] only removes blocks: what is live afterwards was live, with
    the same content, before. *)
Lemma delete_arrays_lookup ps : ∀ (h h' : heap) (q : N) v,
  delete_arrays ps h = Some h' → h' !! q = Some v → h !! q = Some v.
Proof.
  induction ps as [| p ps IH]; intros h h' q v Hd Hq; cbn in Hd; [by simplify_eq |].
  destruct (delete_array p h) as [h1 |] eqn:Hp; [cbn in Hd | done].
  pose proof (IH _ _ _ _ Hd Hq) as Hq1.
  unfold delete_array in Hp. destruct (decide (p = nullptr)); [by simplify_eq |].
  destruct (h !! p); simplify_eq.
  by apply lookup_delete_Some in Hq1 as [_ ?].
Qed.

(** Blocks that are not in the list are left alone. *)
Lemma delete_arrays_other ps : ∀ (h h' : heap) (q : N),
  delete_arrays ps h = Some h' → q ∉ ps → h' !! q = h !! q.
Proof.
  induction ps as [| p ps IH]; intros h h' q Hd Hq; cbn in Hd; [by simplify_eq |].
  apply not_elem_of_cons in Hq as [Hne Hq].
  destruct (delete_array p h) as [h1 |] eqn:Hp; [cbn in Hd | done].
  rewrite (IH _ _ _ Hd Hq).
  unfold delete_array in Hp. destruct (decide (p = nullptr)); [by simplify_eq |].
  destruct (h !! p); simplify_eq. by apply lookup_delete_ne.
Qed.

(** The heap a successful call leaves, and the record it fills, in terms of
    [FetchResults]. *)
Lemma MP_Process_success_fetch t g handle pixels width height results w :
  call_ok (MP_Process t g handle pixels width height results w) = true →
  ∃ r, call_results (MP_Process t g handle pixels width height results w) = Some r ∧
       channels r = channels (FetchResults g MPResults_zero (blocks w)).1 ∧
       blocks (call_world (MP_Process t g handle pixels width height results w))
       = (FetchResults g MPResults_zero (blocks w)).2 ∧
       last_errors (call_world (MP_Process t g handle pixels width height results w))
       = ClearError t (last_errors w).
Proof.
  intros (p & -> & Hok & -> & ->)%MP_Process_success.
  apply Process_success in Hok as (_ & _ & _ & _ & ->).
  unfold call_results, call_world. cbn [fst snd blocks last_errors].
  eexists. by split_and!.
Qed.

(** X3: after a successful call each of the five channels carries exactly
    what its stream held: for a non-empty pending list, a live array with the
    converted landmarks in order and the list's length as count; for an
    empty list or no pending packet, the null pointer and count 0. *)
Theorem MP_Process_delivers_the_streams
    (t : thread) (g : GraphFrame) (handle : option MediaPipeProcessor)
    (pixels : option (list Byte.byte)) (width height : Z)
    (results : option MPResults) (w : World) :
  call_ok (MP_Process t g handle pixels width height results w) = true →
  ∃ r, call_results (MP_Process t g handle pixels width height results w) = Some r ∧
       Forall2
         (channel_holds
            (blocks (call_world (MP_Process t g handle pixels width height results w))))
         (channels r) (delivered g).
Proof.
  intros (r & Hr & Hch & Hblocks & _)%MP_Process_success_fetch.
  exists r. split; [done |]. rewrite Hch, Hblocks.
  apply (FetchResults_delivers g (blocks w)).
Qed.

Lemma MP_Process_delivers_the_streams_witness :
  ∃ r, call_results call_face_pose = Some r ∧
       Forall2 (channel_holds (blocks (call_world call_face_pose)))
         (channels r) (delivered frame_face_pose).
Proof.
  apply (MP_Process_delivers_the_streams 0%nat frame_face_pose (Some processor_fresh)
           (Some []) 640 480 (Some MPResults_zero) World_init).
  vm_compute. reflexivity.
Defined.

(** X4: releasing the record of a successful call gives the heap back as
    it was before the call: every array the call allocated is freed and
    nothing else is touched. *)
Theorem MP_Process_then_release_restores_heap
    (t : thread) (g : GraphFrame) (handle : option MediaPipeProcessor)
    (pixels : option (list Byte.byte)) (width height : Z)
    (results : option MPResults) (w : World) :
  call_ok (MP_Process t g handle pixels width height results w) = true →
  ∃ r w',
    call_results (MP_Process t g handle pixels width height results w) = Some r ∧
    MP_ReleaseResults (Some r)
      (call_world (MP_Process t g handle pixels width height results w))
    = Some (Some MPResults_zero, w') ∧
    blocks w' = blocks w.
Proof.
  intros (r & Hr & Hch & Hblocks & _)%MP_Process_success_fetch.
  destruct (FetchResults_delivers g (blocks w)) as [_ Hdel].
  eexists r, _. split; [done |].
  rewrite MP_ReleaseResults_delete_arrays, Hch, Hblocks, Hdel. cbn.
  split; reflexivity.
Qed.

Lemma MP_Process_then_release_restores_heap_witness :
  ∃ r w',
    call_results call_reuse_unreleased = Some r ∧
    MP_ReleaseResults (Some r) (call_world call_reuse_unreleased)
    = Some (Some MPResults_zero, w') ∧
    blocks w' = blocks (call_world call_face_pose).
Proof.
  apply (MP_Process_then_release_restores_heap 0%nat frame_hands
           (call_handle call_face_pose) (Some []) 640 480
           (Some record_face_pose) (call_world call_face_pose)).
  vm_compute. reflexivity.
Defined.

(** The heap after any call, by outcome. *)
Lemma MP_Process_blocks t g handle pixels width height results w :
  blocks (call_world (MP_Process t g handle pixels width height results w))
  = if call_ok (MP_Process t g handle pixels width height results w)
    then (FetchResults g MPResults_zero (blocks w)).2
    else blocks w.
Proof.
  unfold MP_Process, Process, call_ok, call_world.
  destruct handle as [p |]; [| done].
  destruct pixels as [px |], results as [r |]; try done.
  destruct (image_frame g) as [[] | what]; [| done].
  destruct (AddPacketToInputStream g) as [[| msg] | what]; try done.
  by destruct (FetchResults g MPResults_zero (blocks w)).
Qed.

(** X5: [MP_Process] never frees or overwrites a landmark array: whatever
    the outcome, every block that was live before the call is live with the
    same content after it. *)
Theorem MP_Process_keeps_live_blocks
    (t : thread) (g : GraphFrame) (handle : option MediaPipeProcessor)
    (pixels : option (list Byte.byte)) (width height : Z)
    (results : option MPResults) (w : World) (q : ptr) (arr : list MPLandmark) :
  blocks w !! q = Some arr →
  blocks (call_world (MP_Process t g handle pixels width height results w)) !! q
  = Some arr.
Proof.
  intros Hq. rewrite MP_Process_blocks.
  destruct (call_ok _); [| done].
  destruct (FetchResults_delivers g (blocks w)) as [_ Hdel].
  exact (delete_arrays_lookup _ _ _ _ _ Hdel Hq).
Qed.

Lemma MP_Process_keeps_live_blocks_witness :
  blocks (call_world call_reuse_unreleased) !! 1%N
  = Some (converted <$> [landmark_bare; landmark_scored]).
Proof.
  apply (MP_Process_keeps_live_blocks 0%nat frame_hands
           (call_handle call_face_pose) (Some []) 640 480
           (Some record_face_pose) (call_world call_face_pose) 1%N).
  vm_compute. reflexivity.
Defined.

(** X6: the record a successful call fills refers to no block that was
    live before the call, and that block stays allocated.  In particular
    the arrays of a record passed in without having been released are
    leaked: still on the heap, no longer reachable from the record. *)
Theorem MP_Process_reuse_without_release_leaks
    (t : thread) (g : GraphFrame) (handle : option MediaPipeProcessor)
    (pixels : option (list Byte.byte)) (width height : Z)
    (results : option MPResults) (w : World) (p : ptr) (arr : list MPLandmark) :
  p ≠ nullptr →
  blocks w !! p = Some arr →
  call_ok (MP_Process t g handle pixels width height results w) = true →
  ∃ r', call_results (MP_Process t g handle pixels width height results w) = Some r' ∧
        blocks (call_world (MP_Process t g handle pixels width height results w)) !! p
        = Some arr ∧
        p ∉ (channels r').*1.
Proof.
  intros Hp Hlive (r' & Hr & Hch & Hblocks & _)%MP_Process_success_fetch.
  destruct (FetchResults_delivers g (blocks w)) as [_ Hdel].
  exists r'. split_and!; [done | |].
  - rewrite Hblocks. exact (delete_arrays_lookup _ _ _ _ _ Hdel Hlive).
  - rewrite Hch. intros Hin.
    apply delete_arrays_frees in Hdel. rewrite Forall_forall in Hdel.
    specialize (Hdel _ Hin Hp). by rewrite Hlive in Hdel.
Qed.

Lemma MP_Process_reuse_without_release_leaks_witness :
  1%N ∈ (channels record_face_pose).*1 ∧
  ∃ r', call_results call_reuse_unreleased = Some r' ∧
        blocks (call_world call_reuse_unreleased) !! 1%N
        = Some (converted <$> [landmark_bare; landmark_scored]) ∧
        1%N ∉ (channels r').*1.
Proof.
  split; [vm_compute; set_solver |].
  apply (MP_Process_reuse_without_release_leaks 0%nat frame_hands
           (call_handle call_face_pose) (Some []) 640 480
           (Some record_face_pose) (call_world call_face_pose) 1%N).
  - discriminate.
  - vm_compute. reflexivity.
  - vm_compute. reflexivity.
Defined.

(** ** Error reporting *)

Lemma SetError_code (t : nat) (c : Z) (msg : string) (E : gmap nat MPError) :
  code (g_last_error t (SetError t c msg E)) = c.
Proof. unfold SetError. by rewrite g_last_error_insert, decide_True. Qed.

Lemma SetError_other (t t' : nat) (c : Z) (msg : string) (E : gmap nat MPError) :
  t' ≠ t → g_last_error t' (SetError t c msg E) = g_last_error t' E.
Proof. intros Hne. unfold SetError. by rewrite g_last_error_insert, decide_False. Qed.

Lemma ClearError_other (t t' : nat) (E : gmap nat MPError) :
  t' ≠ t → g_last_error t' (ClearError t E) = g_last_error t' E.
Proof. intros Hne. unfold ClearError. by rewrite g_last_error_insert, decide_False. Qed.

(** Splits a goal about [MP_Process] into the paths through [MP_Process] and
    [Process]. *)
Ltac process_paths g handle pixels results w :=
  unfold MP_Process, Process;
  destruct handle as [?p |];
  [ destruct pixels as [?px |], results as [?r |];
    [ destruct (image_frame g) as [[] | ?what] eqn:?Himage;
      [ destruct (AddPacketToInputStream g) as [[| ?msg] | ?what] eqn:?Hadd;
        [ destruct (FetchResults g MPResults_zero (blocks w)) as [?r' ?h'] eqn:?Hfetch
        | | ]
      | ]
    | | | ]
  | ];
  unfold call_ok, call_handle, call_results, call_world, MP_GetLastError, with_errors;
  cbn [fst snd last_errors blocks];
  rewrite ?SetError_code, ?(proj1 (ClearError_clears _ _)).




(** X9: [MP_Create] returns a handle exactly when the configuration is
    non-null and the graph parses, initializes and starts; the processor
    then holds a copy of the configuration, a frame counter of 0 and a graph
    that was offered nothing, and the error code is 0.  Otherwise the handle
    is null and the code is 10 for a null configuration and 11 for a failed
    start.  No landmark array is allocated either way. *)
Theorem MP_Create_handle_or_error
    (t : thread) (s : GraphStart) (config : option MPConfig) (w : World) :
  let out := MP_Create t s config w in
  let c := code (MP_GetLastError t out.1 out.2) in
  (is_Some out.1 ↔ is_Some config ∧ s = Started) ∧
  (is_Some out.1 ↔ c = 0) ∧
  (c = 10 ↔ config = None) ∧
  (c = 11 ↔ is_Some config ∧ s ≠ Started) ∧
  (∀ p, out.1 = Some p →
     Some (config_ p) = config ∧ frame_count_ p = 0 ∧ input_video (graph_ p) = []) ∧
  blocks out.2 = blocks w.
Proof.
  cbv zeta. unfold MP_Create, MediaPipeProcessor_ctor, MP_GetLastError, with_errors.
  destruct config as [config |], s; cbn [fst snd last_errors blocks];
    rewrite ?SetError_code, ?(proj1 (ClearError_clears _ _));
    split_and!; try done;
    try (split; [intros ? | intros ?]; try done; try lia;
         destruct_and?; try done;
         repeat match goal with
                | H : is_Some None |- _ => by destruct H
                end; eauto; done);
    try (intros p ?; by simplify_eq).
Qed.

(** X10: error state is per thread: a call made on thread [t] into
    [MP_Create] or [MP_Process] leaves what [MP_GetLastError] returns on any
    other thread unchanged, and [MP_ReleaseResults] changes no thread's
    error. *)
Theorem last_error_is_thread_local
    (t t' : thread) (s : GraphStart) (config : option MPConfig) (g : GraphFrame)
    (handle : option MediaPipeProcessor) (pixels : option (list Byte.byte))
    (width height : Z) (results : option MPResults) (w : World) :
  t' ≠ t →
  MP_GetLastError t' handle (MP_Create t s config w).2 = MP_GetLastError t' handle w ∧
  MP_GetLastError t' handle
    (call_world (MP_Process t g handle pixels width height results w))
  = MP_GetLastError t' handle w ∧
  ∀ out, MP_ReleaseResults results w = Some out →
         MP_GetLastError t handle out.2 = MP_GetLastError t handle w ∧
         MP_GetLastError t' handle out.2 = MP_GetLastError t' handle w.
Proof.
  intros Hne. split_and!.
  - unfold MP_Create, MP_GetLastError, with_errors.
    destruct config as [config |]; [destruct (MediaPipeProcessor_ctor s config) |];
      cbn [fst snd last_errors];
      by rewrite ?SetError_other, ?ClearError_other.
  - process_paths g handle pixels results w;
      by rewrite ?SetError_other, ?ClearError_other.
  - intros out Hrel. unfold MP_GetLastError.
    destruct results as [r |].
    + rewrite MP_ReleaseResults_delete_arrays in Hrel.
      destruct (delete_arrays (channels r).*1 (blocks w)); cbn in Hrel;
        by simplify_eq.
    + cbn in Hrel. by simplify_eq.
Qed.

Lemma last_error_is_thread_local_witness :
  let w := (MP_Process 1%nat frame_quiet None None 0 0 None World_init).2 in
  MP_GetLastError 1%nat None (MP_Create 0%nat Started None w).2
  = MP_GetLastError 1%nat None w ∧
  MP_GetLastError 1%nat None
    (call_world (MP_Process 0%nat frame_quiet None None 0 0 None w))
  = MP_GetLastError 1%nat None w ∧
  ∀ out, MP_ReleaseResults None w = Some out →
         MP_GetLastError 0%nat None out.2 = MP_GetLastError 0%nat None w ∧
         MP_GetLastError 1%nat None out.2 = MP_GetLastError 1%nat None w.
Proof.
  apply (last_error_is_thread_local 0%nat 1%nat Started None frame_quiet None None
           0 0 None (MP_Process 1%nat frame_quiet None None 0 0 None World_init).2).
  discriminate.
Defined.

(** X11: the message [MP_GetLastError] returns right after [MP_Process],
    read as a C string: empty after success, the fixed text for a null
    handle or argument, and for a rejected packet or an exception the
    prefix followed by the engine's text, cut to 255 characters. *)
Theorem MP_Process_error_message
    (t : thread) (g : GraphFrame) (handle : option MediaPipeProcessor)
    (pixels : option (list Byte.byte)) (width height : Z)
    (results : option MPResults) (w : World) :
  length (message (g_last_error t (last_errors w))) = MESSAGE_SIZE →
  let out := MP_Process t g handle pixels width height results w in
  let m := c_string (message (MP_GetLastError t (call_handle out) (call_world out))) in
  (call_ok out = true → m = []) ∧
  (handle = None → m = list_ascii_of_string "Invalid handle") ∧
  (is_Some handle → pixels = None ∨ results = None →
   m = list_ascii_of_string "Invalid arguments") ∧
  (∀ what, is_Some handle → is_Some pixels → is_Some results →
     image_frame g = Throws what →
     m = take 255 (c_string (list_ascii_of_string ("Processing error: " +:+ what)))) ∧
  (∀ what, is_Some handle → is_Some pixels → is_Some results →
     image_frame g = Returns () → AddPacketToInputStream g = Throws what →
     m = take 255 (c_string (list_ascii_of_string ("Processing error: " +:+ what)))) ∧
  (∀ msg, is_Some handle → is_Some pixels → is_Some results →
     image_frame g = Returns () →
     AddPacketToInputStream g = Returns (StatusError msg) →
     m = take 255 (c_string (list_ascii_of_string ("Failed to add packet: " +:+ msg)))).
Proof.
  intros Hlen. cbv zeta. process_paths g handle pixels results w;
    rewrite ?SetError_c_string by done;
    rewrite ?(proj2 (ClearError_clears _ _));
    split_and!; intros; simplify_eq; try done;
    repeat match goal with
           | H : is_Some None |- _ => by destruct H
           | H : _ ∨ _ |- _ => destruct H
           end; done.
Qed.

Lemma MP_Process_error_message_witness :
  let out := MP_Process 0%nat frame_rejected (Some processor_fresh) (Some [])
               640 480 (Some MPResults_zero) World_init in
  let m := c_string (message (MP_GetLastError 0%nat (call_handle out) (call_world out))) in
  m = list_ascii_of_string "Failed to add packet: stream closed".
Proof.
  refine (proj2 (proj2 (proj2 (proj2 (proj2
    (MP_Process_error_message 0%nat frame_rejected (Some processor_fresh) (Some [])
       640 480 (Some MPResults_zero) World_init _)))))
    "stream closed" _ _ _ _ _); try reflexivity; eauto.
Defined.

(** ** The frame counter over any sequence of calls *)

(** X12: a call that stops before the timestamp is taken (null handle,
    null pixel buffer, null record, or an exception while wrapping the
    frame) fails and leaves the processor as it was: the counter is not
    advanced and nothing is offered to the graph. *)
Theorem MP_Process_refused_keeps_processor
    (t : thread) (g : GraphFrame) (handle : option MediaPipeProcessor)
    (pixels : option (list Byte.byte)) (width height : Z)
    (results : option MPResults) (w : World) :
  handle = None ∨ pixels = None ∨ results = None ∨
  (∃ what, image_frame g = Throws what) →
  call_ok (MP_Process t g handle pixels width height results w) = false ∧
  call_handle (MP_Process t g handle pixels width height results w) = handle.
Proof.
  intros Hstop. process_paths g handle pixels results w; try done;
    destruct Hstop as [? | [? | [? | [? ?]]]]; done.
Qed.

Lemma MP_Process_refused_keeps_processor_witness :
  call_ok (MP_Process 0%nat frame_unwrappable (Some processor_fresh) (Some [])
             640 480 (Some MPResults_zero) World_init) = false ∧
  call_handle (MP_Process 0%nat frame_unwrappable (Some processor_fresh) (Some [])
                 640 480 (Some MPResults_zero) World_init) = Some processor_fresh.
Proof.
  apply (MP_Process_refused_keeps_processor 0%nat frame_unwrappable
           (Some processor_fresh) (Some []) 640 480 (Some MPResults_zero) World_init).
  right. right. right. eexists. reflexivity.
Defined.

(** One call with non-null arguments, as seen from the processor. *)
Lemma MP_Process_counter_step t g p px width height r w :
  ∃ ok p' r' w',
    MP_Process t g (Some p) (Some px) width height (Some r) w
    = (ok, Some p', Some r', w') ∧
    (reaches_timestamp g = false → p' = p) ∧
    (reaches_timestamp g = true →
     frame_count_ p' = int64_wrap (frame_count_ p + 1) ∧
     (input_video (graph_ p') = input_video (graph_ p) ∨
      input_video (graph_ p') = input_video (graph_ p) ++ [frame_count_ p])).
Proof.
  unfold MP_Process, Process, reaches_timestamp.
  destruct (image_frame g) as [[] | what];
    [destruct (AddPacketToInputStream g) as [[| msg] | what];
     [destruct (FetchResults g MPResults_zero (blocks w)) as [r' h'] | |] |];
    eexists _, _, _, _; (split; [reflexivity |]); cbn;
    split; try done; intros _; split; eauto.
Qed.

(** Any run of calls, successful or not, by induction on the frames. *)
Lemma submit_frames_counter t gs : ∀ p px width height r w,
  INT64_MIN ≤ frame_count_ p →
  frame_count_ p + Z.of_nat (length gs) ≤ INT64_MAX →
  counter_fresh p →
  StronglySorted Z.lt (input_video (graph_ p)) →
  length (submit_frames t gs p px width height r w).1.1 = length gs ∧
  frame_count_ (submit_frames t gs p px width height r w).1.2
  = frame_count_ p
    + Z.of_nat (length (filter (λ g, reaches_timestamp g = true) gs)) ∧
  counter_fresh (submit_frames t gs p px width height r w).1.2 ∧
  StronglySorted Z.lt
    (input_video (graph_ (submit_frames t gs p px width height r w).1.2)) ∧
  input_video (graph_ p)
    `prefix_of` input_video (graph_ (submit_frames t gs p px width height r w).1.2).
Proof.
  induction gs as [| g gs IH]; intros p px width height r w Hmin Hmax Hfresh Hsorted.
  - cbn. split_and!; [done | lia | done | done | done].
  - cbn [submit_frames].
    destruct (MP_Process_counter_step t g p px width height r w)
      as (ok & p' & r' & w' & E & Hstay & Hmove).
    rewrite E. cbn [length] in Hmax.
    specialize (IH p' px width height r' w').
    destruct (submit_frames t gs p' px width height r' w') as [[outs p_end] w_end].
    cbn [fst snd] in *. rewrite filter_cons.
    destruct (reaches_timestamp g) eqn:Hreach.
    + destruct (Hmove eq_refl) as [Hcount Hvideo].
      rewrite int64_wrap_id in Hcount by (unfold INT64_MIN, INT64_MAX in *; lia).
      assert (counter_fresh p') as Hfresh'.
      { unfold counter_fresh in *. rewrite Hcount.
        destruct Hvideo as [-> | ->].
        - eapply Forall_impl; [exact Hfresh |]. cbn. lia.
        - apply Forall_app; split; [| constructor; [lia | constructor]].
          eapply Forall_impl; [exact Hfresh |]. cbn. lia. }
      assert (StronglySorted Z.lt (input_video (graph_ p'))) as Hsorted'.
      { destruct Hvideo as [-> | ->]; [done |].
        apply StronglySorted_app_2; [| done | repeat constructor].
        intros x1 x2 Hx1 ->%list_elem_of_singleton.
        unfold counter_fresh in Hfresh. rewrite Forall_forall in Hfresh. auto. }
      destruct IH as (Hlen & Hend & Hf & Hs & Hpre); [lia | lia | done | done |].
      rewrite decide_True by done.
      split_and!; [cbn; lia | cbn [length]; lia | done | done |].
      etrans; [| exact Hpre].
      destruct Hvideo as [-> | ->]; [done | by apply prefix_app_r].
    + rewrite (Hstay eq_refl) in *.
      destruct IH as (Hlen & Hend & Hf & Hs & Hpre); [lia | lia | done | done |].
      rewrite decide_False by done.
      split_and!; [cbn; lia | done | done | done | done].
Qed.

(** X13: over any sequence of calls with non-null arguments on one
    processor, successful or failed in any mix, the frame counter ends
    higher by exactly the number of calls that reached the timestamp
    assignment, and the timestamps offered to the graph stay strictly
    increasing: what was offered before is kept, and no timestamp is offered
    twice or out of order. *)
Theorem timestamps_offered_strictly_increase
    (t : thread) (gs : list GraphFrame) (p : MediaPipeProcessor)
    (px : list Byte.byte) (width height : Z) (r : MPResults) (w : World) :
  INT64_MIN ≤ frame_count_ p →
  frame_count_ p + Z.of_nat (length gs) ≤ INT64_MAX →
  counter_fresh p →
  StronglySorted Z.lt (input_video (graph_ p)) →
  let run := submit_frames t gs p px width height r w in
  length run.1.1 = length gs ∧
  frame_count_ run.1.2
  = frame_count_ p
    + Z.of_nat (length (filter (λ g, reaches_timestamp g = true) gs)) ∧
  counter_fresh run.1.2 ∧
  StronglySorted Z.lt (input_video (graph_ run.1.2)) ∧
  input_video (graph_ p) `prefix_of` input_video (graph_ run.1.2).
Proof.
  intros Hmin Hmax Hfresh Hsorted run. subst run.
  by apply submit_frames_counter.
Qed.

Lemma timestamps_offered_strictly_increase_witness :
  let gs := [frame_quiet; frame_unwrappable; frame_rejected; frame_face_pose] in
  let run := submit_frames 0%nat gs processor_fresh [] 640 480 MPResults_zero
               World_init in
  length run.1.1 = length gs ∧
  frame_count_ run.1.2
  = frame_count_ processor_fresh
    + Z.of_nat (length (filter (λ g, reaches_timestamp g = true) gs)) ∧
  counter_fresh run.1.2 ∧
  StronglySorted Z.lt (input_video (graph_ run.1.2)) ∧
  input_video (graph_ processor_fresh) `prefix_of` input_video (graph_ run.1.2).
Proof.
  apply (timestamps_offered_strictly_increase 0%nat
           [frame_quiet; frame_unwrappable; frame_rejected; frame_face_pose]
           processor_fresh [] 640 480 MPResults_zero World_init).
  - unfold INT64_MIN. cbn. lia.
  - unfold INT64_MAX. cbn. lia.
  - unfold counter_fresh. cbn. constructor.
  - cbn. constructor.
Defined.

(** The run of the example: four calls, three timestamps offered. *)
Example timestamps_offered_example :
  input_video (graph_ (submit_frames 0%nat
     [frame_quiet; frame_unwrappable; frame_rejected; frame_face_pose]
     processor_fresh [] 640 480 MPResults_zero World_init).1.2) = [0; 1; 2].
Proof. vm_compute. reflexivity. Qed.

(** ** Detection flags, on a concrete call *)

Lemma MP_Process_flags_witness :
  ∃ r, call_results call_reuse_unreleased = Some r ∧
       (face_detected r = true ↔ 1 ≤ face_count r) ∧
       (pose_detected r = true ↔ 1 ≤ pose_count r) ∧
       (1 ≤ left_hand_count r ∨ 1 ≤ right_hand_count r → hands_detected r = true) ∧
       (hands_detected r = true ↔
        is_Some (GetPacket_left_hand_landmarks frame_hands) ∨
        is_Some (GetPacket_right_hand_landmarks frame_hands)).
Proof.
  apply (MP_Process_flags 0%nat frame_hands (call_handle call_face_pose) (Some [])
           640 480 (Some record_face_pose) (call_world call_face_pose)).
  vm_compute. reflexivity.
Defined.

(** ** Releasing *)

(** A release that is defined found every non-null pointer live. *)
Lemma delete_arrays_live ps : ∀ (h h' : heap),
  delete_arrays ps h = Some h' →
  Forall (λ p : N, p = nullptr ∨ is_Some (h !! p)) ps.
Proof.
  induction ps as [| p ps IH]; intros h h' Hd; [constructor |].
  cbn in Hd. destruct (delete_array p h) as [h1 |] eqn:Hp; [cbn in Hd | done].
  unfold delete_array in Hp.
  destruct (decide (p = nullptr)) as [-> | Hne].
  - simplify_eq. constructor; [by left | by eapply IH].
  - destruct (h !! p) as [arr |] eqn:Harr; [| done]. simplify_eq.
    constructor; [right; eauto |].
    eapply Forall_impl; [by eapply IH |].
    intros q [-> | [v Hv]]; [by left | right].
    apply lookup_delete_Some in Hv as [_ Hv]. eauto.
Qed.

(** ... and found none of them twice. *)
Lemma delete_arrays_NoDup ps : ∀ (h h' : heap),
  delete_arrays ps h = Some h' → NoDup (filter (λ p : N, p ≠ nullptr) ps).
Proof.
  induction ps as [| p ps IH]; intros h h' Hd; [constructor |].
  cbn in Hd. destruct (delete_array p h) as [h1 |] eqn:Hp; [cbn in Hd | done].
  rewrite filter_cons. destruct (decide (p ≠ nullptr)) as [Hne | _]; [| by eapply IH].
  apply NoDup_cons. split; [| by eapply IH].
  intros [_ Hin]%list_elem_of_filter.
  pose proof (delete_arrays_live _ _ _ Hd) as Hlive.
  rewrite Forall_forall in Hlive. destruct (Hlive _ Hin) as [-> | [v Hv]]; [done |].
  unfold delete_array in Hp. rewrite decide_False in Hp by done.
  destruct (h !! p); simplify_eq. by rewrite lookup_delete_eq in Hv.
Qed.

(** X14: [MP_ReleaseResults] on a record is defined exactly when each
    non-null channel pointer is a live array and no array is referenced by
    two channels; it then zeroes the record, frees exactly the arrays the
    record referenced and touches neither any other block nor any error
    slot. *)
Theorem MP_ReleaseResults_frees_exactly_the_record (r : MPResults) (w : World) :
  (is_Some (MP_ReleaseResults (Some r) w) ↔ owned (blocks w) r) ∧
  ∀ out, MP_ReleaseResults (Some r) w = Some out →
    out.1 = Some MPResults_zero ∧
    last_errors out.2 = last_errors w ∧
    (∀ q : ptr, q ∈ (channels r).*1 → q ≠ nullptr → blocks out.2 !! q = None) ∧
    (∀ q : ptr, q ∉ (channels r).*1 → blocks out.2 !! q = blocks w !! q).
Proof.
  rewrite MP_ReleaseResults_delete_arrays. split.
  - split.
    + intros [out Hout].
      destruct (delete_arrays (channels r).*1 (blocks w)) as [h |] eqn:Hd; [| done].
      split; [by eapply delete_arrays_live | by eapply delete_arrays_NoDup].
    + intros Hown. destruct (delete_arrays_owned _ _ Hown) as [h Hh].
      rewrite Hh. cbn. eauto.
  - intros out Hout.
    destruct (delete_arrays (channels r).*1 (blocks w)) as [h |] eqn:Hd;
      cbn in Hout; [| done].
    simplify_eq. cbn [fst snd blocks last_errors]. split_and!; [done | done | |].
    + intros q Hin Hne. apply delete_arrays_frees in Hd.
      rewrite Forall_forall in Hd. by apply Hd.
    + intros q Hnotin. by eapply delete_arrays_other.
Qed.

Lemma MP_ReleaseResults_frees_exactly_the_record_witness :
  is_Some (MP_ReleaseResults (Some record_face_pose) (call_world call_face_pose)) ∧
  ∃ out, MP_ReleaseResults (Some record_face_pose) (call_world call_face_pose)
         = Some out ∧
    out.1 = Some MPResults_zero ∧
    last_errors out.2 = last_errors (call_world call_face_pose) ∧
    (∀ q : ptr, q ∈ (channels record_face_pose).*1 → q ≠ nullptr →
       blocks out.2 !! q = None) ∧
    (∀ q : ptr, q ∉ (channels record_face_pose).*1 →
       blocks out.2 !! q = blocks (call_world call_face_pose) !! q).
Proof.
  pose proof (MP_ReleaseResults_frees_exactly_the_record
                record_face_pose (call_world call_face_pose)) as [Hdef Hfrees].
  assert (is_Some (MP_ReleaseResults (Some record_face_pose)
                     (call_world call_face_pose))) as Hsome.
  { apply Hdef. unfold owned, owned_ptrs. compute_done. }
  split; [exact Hsome |].
  destruct Hsome as [out Hout]. exists out. split; [exact Hout |].
  exact (Hfrees out Hout).
Defined.

(** Once its non-null pointers are gone from the heap, a list of pointers
    with a non-null one cannot be released. *)
Lemma delete_arrays_dangling ps : ∀ h : heap,
  Forall (λ p : N, p ≠ nullptr → h !! p = None) ps →
  Exists (λ p : N, p ≠ nullptr) ps →
  delete_arrays ps h = None.
Proof.
  induction ps as [| p ps IH]; intros h Hgone Hex; [by inversion Hex |].
  apply Forall_cons in Hgone as [Hp Hgone]. cbn. unfold delete_array.
  destruct (decide (p = nullptr)) as [-> | Hne].
  - cbn. apply IH; [done |]. by inversion Hex.
  - by rewrite (Hp Hne).
Qed.

(** X15: releasing through a stale copy is a double free: once a record
    that owns at least one array has been released, handing the same,
    un-zeroed record value to [MP_ReleaseResults] again runs [delete[]] on
    a block that is no longer live. *)
Theorem MP_ReleaseResults_stale_copy_is_double_free (r : MPResults) (w : World) :
  owned (blocks w) r →
  Exists (λ p : ptr, p ≠ nullptr) (channels r).*1 →
  ∃ w', MP_ReleaseResults (Some r) w = Some (Some MPResults_zero, w') ∧
        MP_ReleaseResults (Some r) w' = None.
Proof.
  intros Hown Hex.
  destruct (MP_ReleaseResults_owned r w Hown) as (h & Hrel & Hfreed).
  eexists. split; [exact Hrel |].
  rewrite MP_ReleaseResults_delete_arrays. cbn [blocks].
  by rewrite (delete_arrays_dangling _ _ Hfreed Hex).
Qed.

Lemma MP_ReleaseResults_stale_copy_is_double_free_witness :
  ∃ w', MP_ReleaseResults (Some record_face_pose) (call_world call_face_pose)
        = Some (Some MPResults_zero, w') ∧
        MP_ReleaseResults (Some record_face_pose) w' = None.
Proof.
  apply (MP_ReleaseResults_stale_copy_is_double_free
           record_face_pose (call_world call_face_pose)).
  - unfold owned, owned_ptrs. compute_done.
  - apply Exists_cons_hd. vm_compute. discriminate.
Defined.

(** ** The record passed in *)

(** X16: what the record held before the call has no influence on the
    call: with any two record values behind a non-null [results], the
    return value, the processor, the record afterwards, the heap and the
    error slots come out the same, so nothing of an earlier result shows
    through. *)
Theorem MP_Process_ignores_previous_record
    (t : thread) (g : GraphFrame) (handle : option MediaPipeProcessor)
    (pixels : option (list Byte.byte)) (width height : Z)
    (r1 r2 : MPResults) (w : World) :
  (is_Some handle → is_Some pixels →
   MP_Process t g handle pixels width height (Some r1) w
   = MP_Process t g handle pixels width height (Some r2) w) ∧
  (handle = None ∨ pixels = None →
   call_results (MP_Process t g handle pixels width height (Some r1) w) = Some r1 ∧
   call_ok (MP_Process t g handle pixels width height (Some r1) w) = false).
Proof.
  unfold MP_Process, Process, call_results, call_ok.
  destruct handle as [p |], pixels as [px |]; split;
    try (intros [? ?] [? ?]; done); try (intros [? | ?]; done); try done.
Qed.

Lemma MP_Process_ignores_previous_record_witness :
  MP_Process 0%nat frame_hands (Some processor_fresh) (Some []) 640 480
    (Some record_face_pose) World_init
  = MP_Process 0%nat frame_hands (Some processor_fresh) (Some []) 640 480
      (Some MPResults_zero) World_init ∧
  call_results (MP_Process 0%nat frame_hands None (Some []) 640 480
                  (Some record_face_pose) World_init) = Some record_face_pose.
Proof.
  split.
  - apply (proj1 (MP_Process_ignores_previous_record 0%nat frame_hands
                    (Some processor_fresh) (Some []) 640 480
                    record_face_pose MPResults_zero World_init)); eauto.
  - apply (proj2 (MP_Process_ignores_previous_record 0%nat frame_hands
                    None (Some []) 640 480
                    record_face_pose MPResults_zero World_init)).
    by left.
Defined.

(** ** ClearError *)

(** X17: [ClearError] resets the calling thread's code to 0 and empties
    its message as a C string by writing the first character only: the
    buffer keeps its length and every character after the first, and the
    slots of other threads are not touched. *)
Theorem ClearError_writes_first_character_only
    (t : thread) (E : gmap thread MPError) :
  let e := g_last_error t (ClearError t E) in
  code e = 0 ∧
  c_string (message e) = [] ∧
  length (message e) = length (message (g_last_error t E)) ∧
  drop 1 (message e) = drop 1 (message (g_last_error t E)) ∧
  ∀ t' : thread, t' ≠ t → g_last_error t' (ClearError t E) = g_last_error t' E.
Proof.
  cbv zeta. destruct (ClearError_clears t E) as [Hcode Hstr].
  split_and!; [done | done | | |].
  - unfold ClearError. rewrite g_last_error_insert, decide_True by done.
    cbn [message]. apply length_insert.
  - unfold ClearError. rewrite g_last_error_insert, decide_True by done.
    cbn [message]. by destruct (message (g_last_error t E)).
  - intros t' Hne. by apply ClearError_other.
Qed.

(** After a failure and a success on the same thread, the text of the
    failure is still in the buffer behind the terminator. *)
Example ClearError_leaves_stale_text :
  let E := ClearError 0%nat (SetError 0%nat 20 "Invalid handle" ∅) in
  take 14 (message (g_last_error 0%nat E))
  = NUL :: list_ascii_of_string "nvalid handle".
Proof. vm_compute. reflexivity. Qed.
